(** * Model tracer driver (torch/csrc/jit/mobile/model_tracer/TracerRunner.cpp)

    A shallow embedding of the tracer driver: the schema-based custom-class
    recovery, one execution pass over a model bundle ([run_model]) and the
    two-engine session ([trace_run]), together with the properties of the
    trace manifest they produce.

    C++ containers are modelled with stdpp: [std::set<std::string>] is
    [gset string], the kernel-tag map is [gmap string (gset string)] and
    [std::unordered_map<std::string, FunctionSchema>] is a [gmap].  [size_t]
    values are integers in [Z] with the wrap-around at [2^64] written out. *)

From Stdlib Require Import ZArith Lia Ascii.
From stdpp Require Import gmap strings list fin_maps.

#[local] Set Warnings "-clear-no-such-hyp".

Local Open Scope Z_scope.

(* ===================================================================== *)
(** * std::string operations used by the driver                          *)
(* ===================================================================== *)

Module StdString.

(** [size_t] is 64 bits wide on the trace host. *)
Definition size_t_modulus : Z := 2 ^ 64.

(** [std::string::npos], i.e. [(size_t)-1]. *)
Definition npos : Z := size_t_modulus - 1.

(** Unsigned addition on [size_t]. *)
Definition size_t_add (a b : Z) : Z := (a + b) mod size_t_modulus.

Definition size (s : string) : Z := Z.of_nat (String.length s).

(** Offset of the first occurrence of [needle] in [s], if any. *)
Fixpoint first_occurrence (needle s : string) : option nat :=
  if String.prefix needle s then Some 0%nat
  else match s with
       | EmptyString => None
       | String _ s' => S <$> first_occurrence needle s'
       end.

(** Offset of the last occurrence of the character [c] in [s], if any. *)
Fixpoint last_occurrence (c : ascii) (s : string) : option nat :=
  match s with
  | EmptyString => None
  | String a s' =>
      match last_occurrence c s' with
      | Some i => Some (S i)
      | None => if Ascii.eqb a c then Some 0%nat else None
      end
  end.

(** A search result as the [size_t] the C++ call returns. *)
Definition to_size_t (r : option nat) : Z :=
  match r with
  | Some i => Z.of_nat i
  | None => npos
  end.

(** [s.find(needle)] *)
Definition find (s needle : string) : Z :=
  to_size_t (first_occurrence needle s).

(** [s.find_last_of(c)] *)
Definition find_last_of (s : string) (c : ascii) : Z :=
  to_size_t (last_occurrence c s).

Fixpoint drop_chars (n : nat) (s : string) : string :=
  match n, s with
  | O, _ => s
  | S n', String _ s' => drop_chars n' s'
  | S _, EmptyString => EmptyString
  end.

(** [s.substr(pos)]: the suffix from [pos]; [None] stands for the
    [std::out_of_range] thrown when [pos > s.size()]. *)
Definition substr (s : string) (pos : Z) : option string :=
  if size s <? pos then None else Some (drop_chars (Z.to_nat pos) s).

End StdString.

(* ===================================================================== *)
(** * Data model                                                         *)
(* ===================================================================== *)

(** [c10::Argument], reduced to what the driver reads of it:
    [arg.type()->annotation_str()]. *)
Record Argument := { annotation_str : string }.

(** [c10::FunctionSchema] *)
Record FunctionSchema := {
  name : string;
  overload_name : string;
  arguments : list Argument;
  returns : list Argument;
}.

(** [c10::OperatorName] *)
Record OperatorName := {
  op_name : string;
  op_overload_name : string;
}.

(** One entry of the dispatcher's operator table: the operator's name and,
    when [hasSchema()], its schema. *)
Record OperatorHandle := {
  operator_name : OperatorName;
  handle_schema : option FunctionSchema;
}.

(** [at::QEngine], the two engines the session selects. *)
Inductive QEngine := QNNPACK | FBGEMM.

(** [c10::ScalarType], the element types the driver names. *)
Inductive ScalarType :=
  kBool | kByte | kFloat | kInt | kChar | kDouble | kShort | kLong.

Record Tensor := {
  tensor_id : nat;
  tensor_dtype : ScalarType;
}.

(** [at::IValue]: a tensor, a container of values, or a non-tensor leaf. *)
#[warnings="-register-all"]
Inductive IValue :=
| IV_Tensor (t : Tensor)
| IV_List (vs : list IValue)
| IV_Other.

(** [KernelDTypeTracer::kernel_tags_type] *)
Abbreviation kernel_tags_type := (gmap string (gset string)).

(** What the four observers see of one observed computation. *)
Record Recording := {
  rec_operators : list string;
  rec_kernel_tags : list (string * string);
  rec_classes : list string;
  rec_features : list string;
}.

(** Exceptions that can leave the driver. *)
Inductive Exception :=
| out_of_range
| load_failure (path : string)
| no_bundled_inputs
| execution_failure.

(** The four observer kinds the session installs. *)
Inductive ObserverKind :=
  OperatorCall | KernelDType | CustomClass | BuildFeature.

(** Tensor-library calls the driver itself makes. *)
Inductive TensorCall :=
| at_zeros (sizes : list Z) (dtype : option ScalarType)
| at_ones (sizes : list Z)
| at_empty (sizes : list Z) (dtype : option ScalarType)
| fill_ (value : Z)
| new_empty_strided (sizes strides : list Z)
| at_narrow (dim start length : Z)
| at_eq
| is_nonzero
| copy_ (self src : ScalarType)
| div (other : Z)
| torch_zeros (sizes : list Z) (dtype : ScalarType)
| from_blob (sizes : list Z) (dtype : ScalarType)
| cpu (t : Tensor).

(** Computations that run under observation. *)
Inductive Action :=
| A_call (c : TensorCall)
| A_load (path : string) (permissive : bool)
| A_run (method : option string) (inputs : list (list IValue)).

(** Where a tensor handed to the post-processing hook comes from. *)
Inductive TensorOrigin := BundledInput | InferenceResult.

(** The session's externally visible steps, in the order they happen. *)
Inductive Event :=
| E_setQEngine (e : QEngine)
| E_clearUnobserved
| E_attach (k : ObserverKind)
| E_detach (k : ObserverKind)
| E_read (k : ObserverKind)
| E_visit (o : TensorOrigin) (t : Tensor)
| E_action (a : Action).

(** A logged event together with the engine that was active. *)
Record LogEntry := {
  active_engine : QEngine;
  event : Event;
}.

(** What a model bundle exposes through [MobileModelRunner]. *)
Record Bundle := {
  get_root_operators : gset string;
  loads_in_standard_mode : bool;
  bundled_input_tensors : list Tensor;
  has_new_style_bundled_inputs : bool;
  get_many_functions_bundled_inputs : list (string * list (list IValue));
  get_all_bundled_inputs : option (list (list IValue));
}.

(** The backing stores of the four observers. *)
Record Slots := {
  called_operators : gset string;
  called_kernel_tags : kernel_tags_type;
  loaded_classes : gset string;
  build_features : gset string;
}.

(** Process-wide state the driver reads and writes. *)
Record World := {
  qengine : QEngine;
  unobserved_operator_list : list string;
  jit_operators : list FunctionSchema;
  dispatcher_operators : list OperatorHandle;
  live : ObserverKind → bool;
  slots : Slots;
  log : list LogEntry;
}.

(** The collaborators of the driver that live outside this file. *)
Record Host := {
  (** what a path holds, if it holds a loadable bundle *)
  file_system : string → option Bundle;
  (** what the observers see of an action under the given engine *)
  observe : QEngine → Action → Recording;
  (** result values of [run_with_inputs], one per input tuple *)
  forward : QEngine → Bundle → option string → list (list IValue) →
            option (list IValue);
  (** [MobileModelRunner::set_has_metal_gpu_operators] *)
  set_has_metal_gpu_operators : gset string → bool;
  (** [always_included_traced_ops] of TracerRunner.h *)
  always_included_traced_ops : list string;
}.

(** [TracerResult] *)
Record TracerResult := {
  root_ops : gset string;
  traced_operators : gset string;
  called_kernel_tags_result : kernel_tags_type;
  loaded_classes_result : gset string;
  build_features_result : gset string;
  enabled_backends : gset string;
}.

(** The accumulators [trace_run] hands by reference to [run_model]. *)
Record Accumulators := {
  acc_root_ops : gset string;
  acc_enabled_backends : gset string;
  acc_called_kernel_tags : kernel_tags_type;
}.

(* ===================================================================== *)
(** * The driver monad: process-wide state and C++ exceptions            *)
(* ===================================================================== *)

Definition M (A : Type) : Type := World → Exception + (A * World).

Global Instance M_ret : MRet M := λ A a w, inr (a, w).

Global Instance M_bind : MBind M := λ A B f m w,
  match m w with
  | inl e => inl e
  | inr (a, w') => f a w'
  end.

Definition throw {A} (e : Exception) : M A := λ _, inl e.

Definition get_world : M World := λ w, inr (w, w).

Definition put_world (w : World) : M unit := λ _, inr (tt, w).

(** [for (auto& x : xs) body(x);] *)
Fixpoint for_each {A} (xs : list A) (body : A → M unit) : M unit :=
  match xs with
  | [] => mret tt
  | x :: xs' => body x ;; for_each xs' body
  end.

(** A loop whose body updates one captured variable. *)
Fixpoint for_each_acc {A S} (xs : list A) (body : A → S → M S) (s : S) : M S :=
  match xs with
  | [] => mret s
  | x :: xs' => s' ← body x s; for_each_acc xs' body s'
  end.

(* ===================================================================== *)
(** * Primitive steps on the process-wide state                          *)
(* ===================================================================== *)

Global Instance ObserverKind_eq_dec : EqDecision ObserverKind.
Proof. solve_decision. Defined.

Global Instance ScalarType_eq_dec : EqDecision ScalarType.
Proof. solve_decision. Defined.

Global Instance Tensor_eq_dec : EqDecision Tensor.
Proof. solve_decision. Defined.

Global Instance TensorCall_eq_dec : EqDecision TensorCall.
Proof. solve_decision. Defined.

Definition with_log (w : World) (l : list LogEntry) : World :=
  {| qengine := qengine w;
     unobserved_operator_list := unobserved_operator_list w;
     jit_operators := jit_operators w;
     dispatcher_operators := dispatcher_operators w;
     live := live w;
     slots := slots w;
     log := l |}.

Definition with_slots (w : World) (s : Slots) : World :=
  {| qengine := qengine w;
     unobserved_operator_list := unobserved_operator_list w;
     jit_operators := jit_operators w;
     dispatcher_operators := dispatcher_operators w;
     live := live w;
     slots := s;
     log := log w |}.

Definition with_qengine (w : World) (e : QEngine) : World :=
  {| qengine := e;
     unobserved_operator_list := unobserved_operator_list w;
     jit_operators := jit_operators w;
     dispatcher_operators := dispatcher_operators w;
     live := live w;
     slots := slots w;
     log := log w |}.

Definition with_unobserved (w : World) (l : list string) : World :=
  {| qengine := qengine w;
     unobserved_operator_list := l;
     jit_operators := jit_operators w;
     dispatcher_operators := dispatcher_operators w;
     live := live w;
     slots := slots w;
     log := log w |}.

Definition with_live (w : World) (f : ObserverKind → bool) : World :=
  {| qengine := qengine w;
     unobserved_operator_list := unobserved_operator_list w;
     jit_operators := jit_operators w;
     dispatcher_operators := dispatcher_operators w;
     live := f;
     slots := slots w;
     log := log w |}.

(** Append an event to the log, stamped with the active engine. *)
Definition emit (ev : Event) : M unit := λ w,
  inr (tt, with_log w (log w ++ [{| active_engine := qengine w; event := ev |}])).

(** [c.insert(first, last)] on a [std::set]. *)
Definition set_insert_range (c : gset string) (range : list string) : gset string :=
  c ∪ list_to_set range.

(** One kernel-dtype observation: the dtype joins the set kept under the tag. *)
Definition add_kernel_tag (tags : kernel_tags_type) (p : string * string)
  : kernel_tags_type :=
  <[p.1 := {[p.2]} ∪ default ∅ (tags !! p.1)]> tags.

(** Modelled from the spec: the recording callbacks of the four observers
    (OperatorCallTracer, KernelDTypeTracer, CustomClassTracer and
    BuildFeatureTracer are declared in headers outside this file).  A live
    observer adds what it sees to its backing store and never removes
    anything; an operator on the suppression list is not reported to the
    operator-call observer. *)
Definition merge_recording (live : ObserverKind → bool) (unobserved : list string)
    (s : Slots) (r : Recording) : Slots :=
  {| called_operators :=
       if live OperatorCall
       then set_insert_range (called_operators s)
              (filter (λ op, op ∉ unobserved) (rec_operators r))
       else called_operators s;
     called_kernel_tags :=
       if live KernelDType
       then foldl add_kernel_tag (called_kernel_tags s) (rec_kernel_tags r)
       else called_kernel_tags s;
     loaded_classes :=
       if live CustomClass
       then set_insert_range (loaded_classes s) (rec_classes r)
       else loaded_classes s;
     build_features :=
       if live BuildFeature
       then set_insert_range (build_features s) (rec_features r)
       else build_features s |}.

Section Driver.

Context (host : Host).

(** Run an action of the runtime under observation: the action is logged
    and the live observers record what the host says they see of it. *)
Definition perform (a : Action) : M unit :=
  emit (E_action a) ;;
  w ← get_world;
  put_world
    (with_slots w
       (merge_recording (live w) (unobserved_operator_list w) (slots w)
          (observe host (qengine w) a))).

(** [at::globalContext().setQEngine(e)] *)
Definition setQEngine (e : QEngine) : M unit :=
  emit (E_setQEngine e) ;;
  w ← get_world;
  put_world (with_qengine w e).

(** [c10::ObservedOperators::getUnobservedOperatorList().clear()] *)
Definition clearUnobservedOperatorList : M unit :=
  emit E_clearUnobserved ;;
  w ← get_world;
  put_world (with_unobserved w []).

(** Modelled from the spec: the constructor of an observer (the tracer
    classes are outside this file) installs the hook and leaves the
    existing content of the backing store as it is. *)
Definition attach (k : ObserverKind) : M unit :=
  emit (E_attach k) ;;
  w ← get_world;
  put_world (with_live w (λ k', if decide (k' = k) then true else live w k')).

(** Modelled from the spec: the destructor of an observer deregisters the
    hook; the recorded data stays readable. *)
Definition detach (k : ObserverKind) : M unit :=
  emit (E_detach k) ;;
  w ← get_world;
  put_world (with_live w (λ k', if decide (k' = k) then false else live w k')).

(** Modelled from the spec: the accessors of the observers' backing
    stores (the tracer classes are outside this file) return what has been
    recorded so far. *)
Definition getCalledOperators : M (gset string) :=
  emit (E_read OperatorCall) ;; w ← get_world; mret (called_operators (slots w)).
Definition getCalledKernelTags : M kernel_tags_type :=
  emit (E_read KernelDType) ;; w ← get_world; mret (called_kernel_tags (slots w)).
Definition getLoadedClasses : M (gset string) :=
  emit (E_read CustomClass) ;; w ← get_world; mret (loaded_classes (slots w)).
Definition getBuildFeatures : M (gset string) :=
  emit (E_read BuildFeature) ;; w ← get_world; mret (build_features (slots w)).

(** Modelled from the spec: the constructors of [MobileModelRunner]
    (MobileModelRunner.h is outside this file).  [MobileModelRunner(path)]
    loads in standard mode; with [permissive], [MobileModelRunner(path, 0)]
    skips the operator-exists check and fails only when the path holds no
    bundle.  The load runs under observation; a load that fails throws. *)
Definition MobileModelRunner (path : string) (permissive : bool) : M Bundle :=
  match file_system host path with
  | Some b =>
      if permissive || loads_in_standard_mode b
      then perform (A_load path permissive) ;; mret b
      else throw (load_failure path)
  | None => throw (load_failure path)
  end.

(** Modelled from the spec: [runner.run_with_inputs(...)] of
    [MobileModelRunner] executes the named method ([None]: the default one)
    against the input tuples under observation and returns one result value
    per tuple; a failing execution throws. *)
Definition run_with_inputs (runner : Bundle) (method : option string)
    (inputs : list (list IValue)) : M (list IValue) :=
  w ← get_world;
  match forward host (qengine w) runner method inputs with
  | Some results => perform (A_run method inputs) ;; mret results
  | None => throw execution_failure
  end.

(** Modelled from the spec: [runner.get_all_bundled_inputs()] of
    [MobileModelRunner] throws when the bundle has no bundled inputs. *)
Definition get_all_bundled_inputs_or_throw (runner : Bundle)
  : M (list (list IValue)) :=
  match get_all_bundled_inputs runner with
  | Some inputs => mret inputs
  | None => throw no_bundled_inputs
  end.

(** The tensor leaves of a value, in visiting order. *)
Fixpoint ivalue_tensors (v : IValue) : list Tensor :=
  match v with
  | IV_Tensor t => [t]
  | IV_List vs => flat_map ivalue_tensors vs
  | IV_Other => []
  end.

(** Modelled from the spec: [for_each_tensor_in_ivalue(v, f)] of
    TensorUtils.h applies [f] to every tensor leaf of [v]; [origin] says,
    for the log only, where the caller took [v] from. *)
Definition for_each_tensor_in_ivalue (origin : TensorOrigin) (v : IValue)
    (f : Tensor → M unit) : M unit :=
  for_each (ivalue_tensors v) (λ t, emit (E_visit origin t) ;; f t).

(** Modelled from the spec: [runner.for_each_tensor_in_bundled_inputs(f)]
    of [MobileModelRunner] applies [f] to every tensor of the bundled inputs
    and executes nothing. *)
Definition for_each_tensor_in_bundled_inputs (runner : Bundle)
    (f : Tensor → M unit) : M unit :=
  for_each (bundled_input_tensors runner)
           (λ t, emit (E_visit BundledInput t) ;; f t).

End Driver.

(* ===================================================================== *)
(** * TracerRunner.cpp                                                   *)
(* ===================================================================== *)

Import StdString.

Definition gpu_metal_operators : list string := [
  "aten::conv2d";
  "aten::add.Tensor";
  "aten::add_.Tensor";
  "aten::addmm";
  "aten::empty.memory_format";
  "aten::empty_strided";
  "aten::log_softmax.int";
  "aten::max_pool2d";
  "aten::mul.Tensor";
  "aten::relu";
  "aten::relu_";
  "aten::sigmoid";
  "aten::sub.Tensor";
  "aten::upsample_nearest2d.vec";
  "aten::view";
  "aten::adaptive_avg_pool2d";
  "aten::hardtanh_";
  "aten::reshape";
  "aten::flatten.using_ints"
].

Definition all_dtypes_for_copy : list ScalarType :=
  [kBool; kByte; kFloat; kInt; kChar; kDouble; kShort; kLong].

(** [result.emplace(k, v)]: the first value stored under a key stays. *)
Definition emplace {V} (k : string) (v : V) (m : gmap string V) : gmap string V :=
  match m !! k with
  | Some _ => m
  | None => <[k := v]> m
  end.

(** [m.insert(first, last)] on a [std::map]: keys already present keep
    their value. *)
Definition map_insert_range {V} (m : gmap string V) (range : list (string * V))
  : gmap string V :=
  foldl (λ m kv, emplace kv.1 kv.2 m) m range.

(** The name under which an operator is registered: [name], followed by
    ["." + overload_name] when the overload name is not empty. *)
Definition qualified_name (name overload_name : string) : string :=
  if decide (overload_name = "") then name
  else name +:+ ("." +:+ overload_name).

Global Instance OperatorName_eq_dec : EqDecision OperatorName.
Proof. solve_decision. Defined.

(** [c10::Dispatcher::singleton().findOp(op)] *)
Definition findOp (table : list OperatorHandle) (op : OperatorName)
  : option OperatorHandle :=
  snd <$> list_find (λ h, operator_name h = op) table.

Section TracerRunner.

Context (host : Host).

Definition call_setup_methods : M unit :=
  perform host (A_call (at_zeros [2; 2] None)) ;;
  perform host (A_call (at_ones [2; 2])) ;;
  perform host (A_call (at_empty [7; 7] None)) ;;
  perform host (A_call (fill_ 3)) ;;
  perform host (A_call (new_empty_strided [2; 3] [3; 1])) ;;
  perform host (A_call (at_narrow 1 0 1)) ;;
  perform host (A_call at_eq) ;;
  perform host (A_call (at_zeros [1] None)) ;;
  perform host (A_call is_nonzero) ;;
  perform host (A_call (at_zeros [10] (Some kByte))) ;;
  perform host (A_call (at_zeros [10] (Some kFloat))) ;;
  perform host (A_call (copy_ kByte kFloat)) ;;
  perform host (A_call (div 1)) ;;
  for_each all_dtypes_for_copy (λ dtype,
    perform host (A_call (at_empty [10] (Some dtype))) ;;
    perform host (A_call (at_zeros [10] (Some kBool))) ;;
    perform host (A_call (copy_ dtype kBool)) ;;
    perform host (A_call (at_zeros [10] (Some kFloat))) ;;
    perform host (A_call (copy_ dtype kFloat)) ;;
    perform host (A_call (at_zeros [10] (Some kInt))) ;;
    perform host (A_call (copy_ dtype kInt))) ;;
  perform host (A_call (torch_zeros [0; 0] kFloat)) ;;
  perform host (A_call (from_blob [2; 10] kFloat)).

(** [c.copy_(t.cpu())] *)
Definition consume_tensor (t : Tensor) : M unit :=
  perform host (A_call (cpu t)) ;;
  perform host (A_call (copy_ (tensor_dtype t) (tensor_dtype t))).

Definition _get_runtime_ops_and_schema : M (gmap string FunctionSchema) :=
  w ← get_world;
  let result : gmap string FunctionSchema := ∅ in
  (* Grab the jit operators *)
  let result :=
    foldl (λ result op,
             emplace (qualified_name (name op) (overload_name op)) op result)
          result (jit_operators w) in
  (* Grab the dispatcher operators *)
  let result :=
    foldl (λ result op,
             match findOp (dispatcher_operators w) op with
             | Some op_handle =>
                 match handle_schema op_handle with
                 | Some schema =>
                     emplace (qualified_name (op_name op) (op_overload_name op))
                             schema result
                 | None => result
                 end
             | None => result
             end)
          result (operator_name <$> dispatcher_operators w) in
  mret result.

(** The lambda of [recordCustomClassesFromOpSchemas]; it captures
    [loaded_classes] by reference. *)
Definition record_if_class (type_name : string) (loaded_classes : gset string)
  : M (gset string) :=
  if decide (find type_name "__torch__" ≠ npos) then
    match substr type_name (size_t_add (find_last_of type_name ".") 1) with
    | Some class_name => mret ({[class_name]} ∪ loaded_classes)
    | None => throw out_of_range
    end
  else mret loaded_classes.

(** Returns the new content of [loaded_classes], the one argument the
    function writes to. *)
Definition recordCustomClassesFromOpSchemas
    (root_ops traced_ops loaded_classes : gset string) : M (gset string) :=
  let ops : gset string := ∅ in
  let ops := set_insert_range ops (elements root_ops) in
  let ops := set_insert_range ops (elements traced_ops) in
  ops_and_schemas ← _get_runtime_ops_and_schema;
  for_each_acc (elements ops) (λ op_name loaded_classes,
    match ops_and_schemas !! op_name with
    | Some schema =>
        loaded_classes ←
          for_each_acc (arguments schema)
            (λ arg, record_if_class (annotation_str arg)) loaded_classes;
        for_each_acc (returns schema)
          (λ ret, record_if_class (annotation_str ret)) loaded_classes
    | None => mret loaded_classes
    end) loaded_classes.

(** Lines 192-193 of [run_model]: the permissive load and the assignment
    [root_ops = module_runner.get_root_operators()]. *)
Definition run_model_load (input_module_path : string) (acc : Accumulators)
  : M (Bundle * Accumulators) :=
  module_runner ← MobileModelRunner host input_module_path true;
  mret (module_runner,
        {| acc_root_ops := get_root_operators module_runner;
           acc_enabled_backends := acc_enabled_backends acc;
           acc_called_kernel_tags := acc_called_kernel_tags acc |}).

(** The rest of [run_model]: the branch on the kind of bundle. *)
Definition run_model_classify (input_module_path : string)
    (module_runner : Bundle) (acc : Accumulators) : M Accumulators :=
  if set_has_metal_gpu_operators host (acc_root_ops acc) then
    let acc :=
      {| acc_root_ops := set_insert_range (acc_root_ops acc) gpu_metal_operators;
         acc_enabled_backends := {["Metal GPU"]} ∪ acc_enabled_backends acc;
         acc_called_kernel_tags :=
           <["__unused__" := {["Float"]}]> (acc_called_kernel_tags acc) |} in
    for_each_tensor_in_bundled_inputs module_runner consume_tensor ;;
    mret acc
  else
    let acc :=
      {| acc_root_ops := acc_root_ops acc;
         acc_enabled_backends := {["CPU"]} ∪ acc_enabled_backends acc;
         acc_called_kernel_tags := acc_called_kernel_tags acc |} in
    mobile_module_runner ← MobileModelRunner host input_module_path false;
    for_each_tensor_in_bundled_inputs module_runner consume_tensor ;;
    (if has_new_style_bundled_inputs mobile_module_runner then
       let bundled_inputs_mapping :=
         get_many_functions_bundled_inputs mobile_module_runner in
       for_each bundled_inputs_mapping (λ entry,
         let function_name := entry.1 in
         let bundled_inputs := entry.2 in
         results ← run_with_inputs host mobile_module_runner
                     (Some function_name) bundled_inputs;
         for_each results (λ result,
           for_each_tensor_in_ivalue InferenceResult result consume_tensor))
     else
       bundled_inputs ← get_all_bundled_inputs_or_throw mobile_module_runner;
       results ← run_with_inputs host mobile_module_runner None bundled_inputs;
       for_each results (λ result,
         for_each_tensor_in_ivalue InferenceResult result consume_tensor)) ;;
    mret acc.

Definition run_model (input_module_path : string) (acc : Accumulators)
  : M Accumulators :=
  '(module_runner, acc) ← run_model_load input_module_path acc;
  run_model_classify input_module_path module_runner acc.

(** Lines 263-271 of [trace_run]: engine A, the suppression list, the four
    observers and the warm-up block. *)
Definition trace_run_setup : M unit :=
  setQEngine QNNPACK ;;
  clearUnobservedOperatorList ;;
  attach OperatorCall ;;
  attach KernelDType ;;
  attach CustomClass ;;
  attach BuildFeature ;;
  call_setup_methods.

(** Lines 273-275: the session's accumulators start out empty. *)
Definition empty_accumulators : Accumulators :=
  {| acc_root_ops := ∅; acc_enabled_backends := ∅; acc_called_kernel_tags := ∅ |}.

(** Lines 284-305: read the observers, recover custom classes from the
    schemas, merge and build the result; the observers go out of scope. *)
Definition trace_run_collect (acc : Accumulators) : M TracerResult :=
  traced_operators ← getCalledOperators;
  loaded_classes ←
    recordCustomClassesFromOpSchemas (acc_root_ops acc) traced_operators ∅;
  kernel_tags ← getCalledKernelTags;
  let called_kernel_tags :=
    map_insert_range (acc_called_kernel_tags acc) (map_to_list kernel_tags) in
  let traced_operators :=
    set_insert_range traced_operators (always_included_traced_ops host) in
  classes ← getLoadedClasses;
  let loaded_classes := set_insert_range loaded_classes (elements classes) in
  features ← getBuildFeatures;
  let build_features := set_insert_range ∅ (elements features) in
  let tracer_result :=
    {| root_ops := acc_root_ops acc;
       traced_operators := traced_operators;
       called_kernel_tags_result := called_kernel_tags;
       loaded_classes_result := loaded_classes;
       build_features_result := build_features;
       enabled_backends := acc_enabled_backends acc |} in
  detach BuildFeature ;;
  detach CustomClass ;;
  detach KernelDType ;;
  detach OperatorCall ;;
  mret tracer_result.

Definition trace_run (input_module_path : string) : M TracerResult :=
  trace_run_setup ;;
  (* run with QNNPACK *)
  acc ← run_model input_module_path empty_accumulators;
  setQEngine FBGEMM ;;
  acc ← run_model input_module_path acc;
  trace_run_collect acc.

End TracerRunner.

(* ===================================================================== *)
(** * Notions the specification uses                                     *)
(* ===================================================================== *)

(** The namespace marker of custom class types. *)
Definition custom_type_marker : string := "__torch__".

(** The separator of a qualified type name. *)
Definition path_separator : ascii := "."%char.

(** [s] contains [marker] as a substring. *)
Definition contains_substring (marker s : string) : Prop :=
  ∃ pre post, s = pre +:+ (marker +:+ post).

(** [s] contains the character [c]. *)
Definition contains_char (c : ascii) (s : string) : Prop :=
  In c (String.list_ascii_of_string s).

(** The components of [s] between occurrences of [sep]. *)
Fixpoint split_on (sep : ascii) (s : string) : list string :=
  match s with
  | EmptyString => [EmptyString]
  | String a s' =>
      if Ascii.eqb a sep then EmptyString :: split_on sep s'
      else match split_on sep s' with
           | w :: ws => String a w :: ws
           | [] => [String a EmptyString]
           end
  end.

(** The simple name of a type annotation: the text following its final path
    separator, i.e. the last component of the annotation split at the
    separators. *)
Definition simple_name (annotation : string) : string :=
  List.last (split_on path_separator annotation) EmptyString.

(** The type annotations of a schema: arguments first, then returns. *)
Definition schema_annotations (schema : FunctionSchema) : list string :=
  (annotation_str <$> arguments schema) ++ (annotation_str <$> returns schema).

(** Modelled from the spec: [MobileModelRunner::set_has_metal_gpu_operators]
    is defined outside this file; the specification describes it as a pure
    function of the declared root-operator set, true iff that set intersects
    the fixed reference table of GPU operator names. *)
Definition set_has_metal_gpu_operators_from_spec (root_ops : gset string) : bool :=
  bool_decide (root_ops ∩ list_to_set gpu_metal_operators ≠ ∅).

(** The operators the operator-call observer is told about by the actions
    of a stretch of the log. *)
Definition recorded_operators (host : Host) (entries : list LogEntry) : gset string :=
  ⋃ ((λ en, match event en with
            | E_action a =>
                list_to_set (rec_operators (observe host (active_engine en) a))
            | _ => ∅
            end) <$> entries).

(** The warm-up block as the list of its tensor-library calls. *)
Definition warm_up_calls : list TensorCall :=
  [ at_zeros [2; 2] None; at_ones [2; 2]; at_empty [7; 7] None; fill_ 3;
    new_empty_strided [2; 3] [3; 1]; at_narrow 1 0 1; at_eq;
    at_zeros [1] None; is_nonzero;
    at_zeros [10] (Some kByte); at_zeros [10] (Some kFloat); copy_ kByte kFloat;
    div 1 ]
  ++ flat_map (λ dtype,
       [ at_empty [10] (Some dtype);
         at_zeros [10] (Some kBool); copy_ dtype kBool;
         at_zeros [10] (Some kFloat); copy_ dtype kFloat;
         at_zeros [10] (Some kInt); copy_ dtype kInt ])
       [kBool; kByte; kFloat; kInt; kChar; kDouble; kShort; kLong]
  ++ [ torch_zeros [0; 0] kFloat; from_blob [2; 10] kFloat ].

(* ===================================================================== *)
(** * The recovery read as a pure function                               *)
(* ===================================================================== *)

Section RecoveryReading.

Import StdString.

(** The registry [_get_runtime_ops_and_schema] builds from a world. *)
Definition registry_of (w : World) : gmap string FunctionSchema :=
  match _get_runtime_ops_and_schema w with
  | inr (reg, _) => reg
  | inl _ => ∅
  end.

(** What [record_if_class] adds for one annotation. *)
Definition class_of (type_name : string) : gset string :=
  if decide (find type_name custom_type_marker ≠ npos)
  then {[ drop_chars
            (Z.to_nat (size_t_add (find_last_of type_name path_separator) 1))
            type_name ]}
  else ∅.

Definition classes_of (annotations : list string) : gset string :=
  ⋃ (class_of <$> annotations).

(** What the loop body adds for one operator name. *)
Definition classes_of_operator (reg : gmap string FunctionSchema)
    (op_name : string) : gset string :=
  match reg !! op_name with
  | Some schema => classes_of (schema_annotations schema)
  | None => ∅
  end.

End RecoveryReading.

(* ===================================================================== *)
(** * Reading the log                                                    *)
(* ===================================================================== *)

(** The slots after the observers have seen the actions of [entries]. *)
Definition replay (host : Host) (live : ObserverKind → bool)
    (unobserved : list string) (entries : list LogEntry) (s : Slots) : Slots :=
  foldl (λ s en,
           match event en with
           | E_action a =>
               merge_recording live unobserved s
                 (observe host (active_engine en) a)
           | _ => s
           end) s entries.

(** [w'] is [w] after a stretch of observed work: the log has grown by
    [entries], each stamped with the engine of [w] and each satisfying [P];
    the slots hold what the live observers saw of the entries; nothing else
    has changed. *)
Record extends (host : Host) (P : Event → Prop) (w w' : World)
    (entries : list LogEntry) : Prop := {
  ext_qengine : qengine w' = qengine w;
  ext_unobserved : unobserved_operator_list w' = unobserved_operator_list w;
  ext_jit : jit_operators w' = jit_operators w;
  ext_dispatcher : dispatcher_operators w' = dispatcher_operators w;
  ext_live : live w' = live w;
  ext_log : log w' = log w ++ entries;
  ext_entries :
    Forall (λ en, active_engine en = qengine w ∧ P (event en)) entries;
  ext_slots :
    slots w' = replay host (live w) (unobserved_operator_list w) entries (slots w);
}.

(** [w'] is [w] after steps that only write [entries] to the log and
    install or remove observers. *)
Record quiet (w w' : World) (entries : list LogEntry) : Prop := {
  quiet_qengine : qengine w' = qengine w;
  quiet_unobserved : unobserved_operator_list w' = unobserved_operator_list w;
  quiet_jit : jit_operators w' = jit_operators w;
  quiet_dispatcher : dispatcher_operators w' = dispatcher_operators w;
  quiet_slots : slots w' = slots w;
  quiet_log : log w' = log w ++ entries;
}.

(** Every successful run of [m] is such a stretch. *)
Definition runs {A} (host : Host) (P : Event → Prop) (m : M A) : Prop :=
  ∀ w a w', m w = inr (a, w') → ∃ entries, extends host P w w' entries.

(** The events inside an execution pass, after the permissive load that
    opens it: the standard-mode load, tensor calls, method runs and the
    visits of the post-processing hook. *)
Definition pass_event (e : Event) : Prop :=
  match e with
  | E_visit _ _ => True
  | E_action (A_call _) => True
  | E_action (A_run _ _) => True
  | E_action (A_load _ permissive) => permissive = false
  | _ => False
  end.

(** The events of a pass that executes nothing: tensor calls and visits of
    bundled-input tensors. *)
Definition idle_pass_event (e : Event) : Prop :=
  match e with
  | E_visit origin _ => origin = BundledInput
  | E_action (A_call _) => True
  | _ => False
  end.

Definition is_call (e : Event) : Prop :=
  match e with
  | E_action (A_call _) => True
  | _ => False
  end.

(** The permissive load that opens an execution pass over [path]. *)
Definition pass_start (e : QEngine) (path : string) : LogEntry :=
  {| active_engine := e; event := E_action (A_load path true) |}.

(** One kernel-tag map holds everything another does. *)
Definition kernel_tags_included (t1 t2 : kernel_tags_type) : Prop :=
  ∀ tag dtypes, t1 !! tag = Some dtypes →
                ∃ dtypes', t2 !! tag = Some dtypes' ∧ dtypes ⊆ dtypes'.

Record accumulators_included (a1 a2 : Accumulators) : Prop := {
  incl_root_ops : acc_root_ops a1 ⊆ acc_root_ops a2;
  incl_enabled_backends : acc_enabled_backends a1 ⊆ acc_enabled_backends a2;
  incl_called_kernel_tags :
    kernel_tags_included (acc_called_kernel_tags a1) (acc_called_kernel_tags a2);
}.

(** The world after [perform]. *)
Definition performed (host : Host) (a : Action) (w : World) : World :=
  let w1 := with_log w (log w ++ [{| active_engine := qengine w;
                                     event := E_action a |}]) in
  with_slots w1
    (merge_recording (live w) (unobserved_operator_list w) (slots w)
       (observe host (qengine w) a)).

(** The world when the warm-up block starts: engine A selected, the
    suppression list cleared, the four observers installed. *)
Definition prepared (w : World) : World :=
  match (setQEngine QNNPACK ;;
         clearUnobservedOperatorList ;;
         attach OperatorCall ;;
         attach KernelDType ;;
         attach CustomClass ;;
         attach BuildFeature) w with
  | inr (_, w') => w'
  | inl _ => w
  end.

(** The world after [setQEngine]. *)
Definition engine_selected (e : QEngine) (w : World) : World :=
  with_qengine
    (with_log w (log w ++ [{| active_engine := qengine w;
                              event := E_setQEngine e |}])) e.

(** The accumulators after line 193 of a pass over [bundle]. *)
Definition loaded_accumulators (bundle : Bundle) (acc : Accumulators)
  : Accumulators :=
  {| acc_root_ops := get_root_operators bundle;
     acc_enabled_backends := acc_enabled_backends acc;
     acc_called_kernel_tags := acc_called_kernel_tags acc |}.

(** The accumulators at the end of a pass, from those after line 193. *)
Definition classified (host : Host) (acc : Accumulators) : Accumulators :=
  if set_has_metal_gpu_operators host (acc_root_ops acc) then
    {| acc_root_ops := set_insert_range (acc_root_ops acc) gpu_metal_operators;
       acc_enabled_backends := {["Metal GPU"]} ∪ acc_enabled_backends acc;
       acc_called_kernel_tags :=
         <["__unused__" := {["Float"]}]> (acc_called_kernel_tags acc) |}
  else
    {| acc_root_ops := acc_root_ops acc;
       acc_enabled_backends := {["CPU"]} ∪ acc_enabled_backends acc;
       acc_called_kernel_tags := acc_called_kernel_tags acc |}.

(** The tensors the post-processing hook was applied to, with their origin. *)
Definition visited (entries : list LogEntry) : list (TensorOrigin * Tensor) :=
  omap (λ en, match event en with
              | E_visit origin t => Some (origin, t)
              | _ => None
              end) entries.

(** The method runs in a stretch of the log. *)
Definition is_method_run (e : Event) : bool :=
  match e with
  | E_action (A_run _ _) => true
  | _ => false
  end.

Definition method_runs (entries : list LogEntry) : list LogEntry :=
  filter (λ en, is_method_run (event en)) entries.

(** The permissive loads, i.e. the starts of execution passes, in a stretch
    of the log. *)
Definition is_pass_start (e : Event) : bool :=
  match e with
  | E_action (A_load _ true) => true
  | _ => false
  end.

Definition pass_starts (entries : list LogEntry) : list LogEntry :=
  filter (λ en, is_pass_start (event en)) entries.

(** The log entries of the walk over the bundled-input tensors. *)
Definition walk_entries (e : QEngine) (tensors : list Tensor) : list LogEntry :=
  flat_map (λ t,
    [ {| active_engine := e; event := E_visit BundledInput t |};
      {| active_engine := e; event := E_action (A_call (cpu t)) |};
      {| active_engine := e;
         event := E_action (A_call (copy_ (tensor_dtype t) (tensor_dtype t))) |} ])
    tensors.

(** The entries a run from [w] to [w'] has appended to the log. *)
Definition new_entries (w w' : World) : list LogEntry :=
  drop (length (log w)) (log w').

(** The world when the first pass starts: prepared and warmed up. *)
Definition warmed_up (host : Host) (w : World) : World :=
  foldl (λ w c, performed host (A_call c) w) (prepared w) warm_up_calls.

(** [m] performs the tensor calls [calls], in order, and nothing else. *)
Definition performs (host : Host) (m : M unit) (calls : list TensorCall) : Prop :=
  ∀ w, m w = inr (tt, foldl (λ w c, performed host (A_call c) w) w calls).

(** The log entries of lines 263-269, written from a process whose engine
    was [e0]. *)
Definition setup_entries (e0 : QEngine) : list LogEntry :=
  [ {| active_engine := e0; event := E_setQEngine QNNPACK |};
    {| active_engine := QNNPACK; event := E_clearUnobserved |};
    {| active_engine := QNNPACK; event := E_attach OperatorCall |};
    {| active_engine := QNNPACK; event := E_attach KernelDType |};
    {| active_engine := QNNPACK; event := E_attach CustomClass |};
    {| active_engine := QNNPACK; event := E_attach BuildFeature |} ].

(** The log entries of the warm-up block. *)
Definition warm_up_entries : list LogEntry :=
  (λ c, {| active_engine := QNNPACK; event := E_action (A_call c) |})
    <$> warm_up_calls.

(** The log entries of lines 284-305 under engine [e]. *)
Definition collect_entries (e : QEngine) : list LogEntry :=
  [ {| active_engine := e; event := E_read OperatorCall |};
    {| active_engine := e; event := E_read KernelDType |};
    {| active_engine := e; event := E_read CustomClass |};
    {| active_engine := e; event := E_read BuildFeature |};
    {| active_engine := e; event := E_detach BuildFeature |};
    {| active_engine := e; event := E_detach CustomClass |};
    {| active_engine := e; event := E_detach KernelDType |};
    {| active_engine := e; event := E_detach OperatorCall |} ].

(** The result [trace_run_collect] builds from the accumulators and the
    observers' stores. *)
Definition collected (host : Host) (acc : Accumulators) (w : World)
  : TracerResult :=
  {| root_ops := acc_root_ops acc;
     traced_operators :=
       set_insert_range (called_operators (slots w))
         (always_included_traced_ops host);
     called_kernel_tags_result :=
       map_insert_range (acc_called_kernel_tags acc)
         (map_to_list (called_kernel_tags (slots w)));
     loaded_classes_result :=
       set_insert_range
         (⋃ (classes_of_operator (registry_of w)
               <$> elements (acc_root_ops acc ∪ called_operators (slots w))) ∪ ∅)
         (elements (loaded_classes (slots w)));
     build_features_result :=
       set_insert_range ∅ (elements (build_features (slots w)));
     enabled_backends := acc_enabled_backends acc |}.

(** Additivity at every point of the session, read at the point after
    line 193 of the second pass: whatever the accumulators held at the end
    of the first pass, they hold there. *)
Definition accumulators_never_shrink (host : Host) (path : string) (w : World)
  : Prop :=
  ∀ acc1 w2 b acc_mid w_mid,
    run_model host path empty_accumulators (warmed_up host w) = inr (acc1, w2) →
    run_model_load host path acc1 (engine_selected FBGEMM w2)
      = inr ((b, acc_mid), w_mid) →
    accumulators_included acc1 acc_mid.

(** The traced operators of the manifest as the union of what the
    operator-call observer was told during the two passes, with the baseline
    added, and nothing else. *)
Definition traced_operators_are_pass_recordings (host : Host) (path : string)
    (w : World) : Prop :=
  ∀ acc1 w2 acc2 w4 m w',
    run_model host path empty_accumulators (warmed_up host w) = inr (acc1, w2) →
    run_model host path acc1 (engine_selected FBGEMM w2) = inr (acc2, w4) →
    trace_run_collect host acc2 w4 = inr (m, w') →
    traced_operators m
    = recorded_operators host (new_entries (warmed_up host w) w2)
      ∪ recorded_operators host (new_entries (engine_selected FBGEMM w2) w4)
      ∪ list_to_set (always_included_traced_ops host).


(* ===================================================================== *)
(** * A sample trace host                                                *)
(* ===================================================================== *)

Module Sample.

Definition tensor_arg : Argument := {| annotation_str := "Tensor" |}.

(** The schema quoted in the source comment of the recovery. *)
Definition linear_clamp_prepack : FunctionSchema :=
  {| name := "prepacked::linear_clamp_prepack";
     overload_name := "";
     arguments := [ tensor_arg;
                    {| annotation_str := "Optional[Tensor]" |};
                    {| annotation_str := "Optional[number]" |};
                    {| annotation_str := "Optional[number]" |} ];
     returns := [ {| annotation_str :=
                      "__torch__.torch.classes.xnnpack.LinearOpContext" |} ] |}.

Definition add_Tensor : FunctionSchema :=
  {| name := "aten::add";
     overload_name := "Tensor";
     arguments := [ tensor_arg; tensor_arg; {| annotation_str := "number" |} ];
     returns := [ tensor_arg ] |}.

(** A schema whose return annotation has the marker and no separator. *)
Definition make_handle : FunctionSchema :=
  {| name := "custom::make_handle";
     overload_name := "";
     arguments := [];
     returns := [ {| annotation_str := "__torch__Handle" |} ] |}.

Definition no_slots : Slots :=
  {| called_operators := ∅; called_kernel_tags := ∅;
     loaded_classes := ∅; build_features := ∅ |}.

(** The process before a session: engine B selected by an earlier user, one
    operator on the suppression list, no observer installed. *)
Definition world : World :=
  {| qengine := FBGEMM;
     unobserved_operator_list := ["aten::ones"];
     jit_operators := [linear_clamp_prepack; make_handle];
     dispatcher_operators :=
       [ {| operator_name := {| op_name := "aten::add"; op_overload_name := "Tensor" |};
            handle_schema := Some add_Tensor |};
         {| operator_name := {| op_name := "aten::conv2d"; op_overload_name := "" |};
            handle_schema := None |} ];
     live := λ _, false;
     slots := no_slots;
     log := [] |}.

Definition dtype_name (t : ScalarType) : string :=
  match t with
  | kBool => "Bool" | kByte => "Byte" | kFloat => "Float" | kInt => "Int"
  | kChar => "Char" | kDouble => "Double" | kShort => "Short" | kLong => "Long"
  end.

Definition saw (ops : list string) (tags : list (string * string)) : Recording :=
  {| rec_operators := ops; rec_kernel_tags := tags;
     rec_classes := []; rec_features := [] |}.

Definition observed_by_host (e : QEngine) (a : Action) : Recording :=
  match a with
  | A_call (at_zeros _ _) => saw ["aten::zeros"] []
  | A_call (at_ones _) => saw ["aten::ones"] []
  | A_call (copy_ self _) => saw ["aten::copy_"] [("copy_", dtype_name self)]
  | A_call (cpu _) => saw ["aten::to.device"] []
  | A_call _ => saw [] []
  | A_load _ _ => saw [] []
  | A_run _ _ =>
      saw ["aten::mm"]
          [(match e with QNNPACK => "mm_qnnpack" | FBGEMM => "mm_fbgemm" end, "Float")]
  end.

Definition input_tensor : Tensor := {| tensor_id := 0; tensor_dtype := kFloat |}.
Definition output_tensor : Tensor := {| tensor_id := 1; tensor_dtype := kFloat |}.

(** A bundle that declares one operator of the GPU reference table. *)
Definition gpu_bundle : Bundle :=
  {| get_root_operators := {["aten::conv2d"]};
     loads_in_standard_mode := false;
     bundled_input_tensors := [input_tensor];
     has_new_style_bundled_inputs := false;
     get_many_functions_bundled_inputs := [];
     get_all_bundled_inputs := Some [[IV_Tensor input_tensor]] |}.

(** A bundle for the CPU with one legacy bundled input. *)
Definition cpu_bundle : Bundle :=
  {| get_root_operators := {["aten::mm"]};
     loads_in_standard_mode := true;
     bundled_input_tensors := [input_tensor];
     has_new_style_bundled_inputs := false;
     get_many_functions_bundled_inputs := [];
     get_all_bundled_inputs := Some [[IV_Tensor input_tensor]] |}.

Definition gpu_path : string := "gpu_model.ptl".
Definition cpu_path : string := "cpu_model.ptl".

Definition host : Host :=
  {| file_system := λ path,
       if decide (path = gpu_path) then Some gpu_bundle
       else if decide (path = cpu_path) then Some cpu_bundle
       else None;
     observe := observed_by_host;
     forward := λ _ _ _ inputs, Some ((λ _, IV_Tensor output_tensor) <$> inputs);
     set_has_metal_gpu_operators := set_has_metal_gpu_operators_from_spec;
     always_included_traced_ops := ["aten::resize_"; "aten::slice.Tensor"] |}.

(** The session over the GPU bundle, pass by pass. *)
Definition acc1 : Accumulators :=
  match run_model host gpu_path empty_accumulators (warmed_up host world) with
  | inr (acc, _) => acc
  | inl _ => empty_accumulators
  end.

Definition after_first_pass : World :=
  match run_model host gpu_path empty_accumulators (warmed_up host world) with
  | inr (_, w) => w
  | inl _ => world
  end.

Definition acc2 : Accumulators :=
  match run_model host gpu_path acc1 (engine_selected FBGEMM after_first_pass) with
  | inr (acc, _) => acc
  | inl _ => empty_accumulators
  end.

Definition after_second_pass : World :=
  match run_model host gpu_path acc1 (engine_selected FBGEMM after_first_pass) with
  | inr (_, w) => w
  | inl _ => world
  end.

Definition no_result : TracerResult :=
  {| root_ops := ∅; traced_operators := ∅; called_kernel_tags_result := ∅;
     loaded_classes_result := ∅; build_features_result := ∅;
     enabled_backends := ∅ |}.

Definition gpu_manifest : TracerResult :=
  match trace_run host gpu_path world with
  | inr (m, _) => m
  | inl _ => no_result
  end.

Definition gpu_final_world : World :=
  match trace_run host gpu_path world with
  | inr (_, w) => w
  | inl _ => world
  end.

(** The session over the CPU bundle. *)
Definition cpu_manifest : TracerResult :=
  match trace_run host cpu_path world with
  | inr (m, _) => m
  | inl _ => no_result
  end.

Definition cpu_final_world : World :=
  match trace_run host cpu_path world with
  | inr (_, w) => w
  | inl _ => world
  end.

End Sample.

(** The sample host with a kernel-dtype observer that is told of a kernel
    under the tag ["__unused__"] when the warm-up block divides. *)
Module Reserved.

Definition observed_by_host (e : QEngine) (a : Action) : Recording :=
  match a with
  | A_call (div _) => Sample.saw ["aten::div.Tensor"] [("__unused__", "Double")]
  | _ => Sample.observed_by_host e a
  end.

Definition host : Host :=
  {| file_system := file_system Sample.host;
     observe := observed_by_host;
     forward := forward Sample.host;
     set_has_metal_gpu_operators := set_has_metal_gpu_operators_from_spec;
     always_included_traced_ops := always_included_traced_ops Sample.host |}.

Definition gpu_manifest : TracerResult :=
  match trace_run host Sample.gpu_path Sample.world with
  | inr (m, _) => m
  | inl _ => Sample.no_result
  end.

Definition gpu_final_world : World :=
  match trace_run host Sample.gpu_path Sample.world with
  | inr (_, w) => w
  | inl _ => Sample.world
  end.

Definition cpu_manifest : TracerResult :=
  match trace_run host Sample.cpu_path Sample.world with
  | inr (m, _) => m
  | inl _ => Sample.no_result
  end.

Definition cpu_final_world : World :=
  match trace_run host Sample.cpu_path Sample.world with
  | inr (_, w) => w
  | inl _ => Sample.world
  end.

End Reserved.

(* ===================================================================== *)
(** * The operator registry and the passes over a CPU bundle, entry by entry *)
(* ===================================================================== *)

(** The entries [_get_runtime_ops_and_schema] emplaces for the JIT
    operators, in order. *)
Definition jit_entries (jit : list FunctionSchema)
  : list (string * FunctionSchema) :=
  (λ op, (qualified_name (name op) (overload_name op), op)) <$> jit.

(** The entry the dispatcher loop emplaces for one operator name, if any. *)
Definition dispatcher_entry (table : list OperatorHandle) (op : OperatorName)
  : option (string * FunctionSchema) :=
  op_handle ← findOp table op;
  schema ← handle_schema op_handle;
  Some (qualified_name (op_name op) (op_overload_name op), schema).

(** The entries it emplaces for the dispatcher operators, in order. *)
Definition dispatcher_entries (table : list OperatorHandle)
  : list (string * FunctionSchema) :=
  omap (dispatcher_entry table) (operator_name <$> table).

(** [m], run from [w], returns [a] in [w'] after one stretch of observed
    work that logs exactly [entries]. *)
Definition yields {A} (host : Host) (m : M A) (w : World) (a : A) (w' : World)
    (entries : list LogEntry) : Prop :=
  m w = inr (a, w') ∧ extends host (λ _, True) w w' entries.

(** The log entries of the hook applied to each of [tensors]: the visit and
    the two tensor calls of [consume_tensor]. *)
Definition visit_entries (origin : TensorOrigin) (e : QEngine)
    (tensors : list Tensor) : list LogEntry :=
  flat_map (λ t,
    [ {| active_engine := e; event := E_visit origin t |};
      {| active_engine := e; event := E_action (A_call (cpu t)) |};
      {| active_engine := e;
         event := E_action (A_call (copy_ (tensor_dtype t) (tensor_dtype t))) |} ])
    tensors.

(** The log entries of the hook applied to the tensors of result values. *)
Definition result_entries (e : QEngine) (results : list IValue) : list LogEntry :=
  flat_map (λ result, visit_entries InferenceResult e (ivalue_tensors result))
           results.

Definition run_entry (e : QEngine) (method : option string)
    (inputs : list (list IValue)) : LogEntry :=
  {| active_engine := e; event := E_action (A_run method inputs) |}.

(** The standard-mode load of a pass over [path]. *)
Definition standard_load (e : QEngine) (path : string) : LogEntry :=
  {| active_engine := e; event := E_action (A_load path false) |}.

(** The log entries of one function of a new-style bundle: its run and the
    hook on its results. *)
Definition function_entries (host : Host) (e : QEngine) (runner : Bundle)
    (entry : string * list (list IValue)) : list LogEntry :=
  run_entry e (Some entry.1) entry.2
  :: match forward host e runner (Some entry.1) entry.2 with
     | Some results => result_entries e results
     | None => []
     end.

(** The accumulators a pass over a CPU bundle leaves. *)
Definition cpu_accumulators (b : Bundle) (acc : Accumulators) : Accumulators :=
  {| acc_root_ops := get_root_operators b;
     acc_enabled_backends := {["CPU"]} ∪ acc_enabled_backends acc;
     acc_called_kernel_tags := acc_called_kernel_tags acc |}.

(** More bundles and hosts. *)
Module Cases.

(** A CPU bundle that refers to an operator the host lacks: only the
    permissive load succeeds. *)
Definition broken_bundle : Bundle :=
  {| get_root_operators := {["aten::mm"]};
     loads_in_standard_mode := false;
     bundled_input_tensors := [Sample.input_tensor];
     has_new_style_bundled_inputs := false;
     get_many_functions_bundled_inputs := [];
     get_all_bundled_inputs := Some [[IV_Tensor Sample.input_tensor]] |}.

(** A CPU bundle of the legacy convention without bundled inputs. *)
Definition silent_bundle : Bundle :=
  {| get_root_operators := {["aten::mm"]};
     loads_in_standard_mode := true;
     bundled_input_tensors := [];
     has_new_style_bundled_inputs := false;
     get_many_functions_bundled_inputs := [];
     get_all_bundled_inputs := None |}.

Definition second_tensor : Tensor := {| tensor_id := 2; tensor_dtype := kInt |}.

(** A CPU bundle of the new convention with inputs for two functions. *)
Definition multi_bundle : Bundle :=
  {| get_root_operators := {["aten::mm"]};
     loads_in_standard_mode := true;
     bundled_input_tensors := [Sample.input_tensor; second_tensor];
     has_new_style_bundled_inputs := true;
     get_many_functions_bundled_inputs :=
       [ ("forward", [[IV_Tensor Sample.input_tensor]]);
         ("encode", [[IV_List [IV_Tensor second_tensor; IV_Other]]; []]) ];
     get_all_bundled_inputs := None |}.

Definition broken_path : string := "broken_model.ptl".
Definition silent_path : string := "silent_model.ptl".
Definition multi_path : string := "multi_model.ptl".
Definition missing_path : string := "missing_model.ptl".

Definition files (path : string) : option Bundle :=
  if decide (path = broken_path) then Some broken_bundle
  else if decide (path = silent_path) then Some silent_bundle
  else if decide (path = multi_path) then Some multi_bundle
  else file_system Sample.host path.

Definition host : Host :=
  {| file_system := files;
     observe := Sample.observed_by_host;
     forward := forward Sample.host;
     set_has_metal_gpu_operators := set_has_metal_gpu_operators_from_spec;
     always_included_traced_ops := always_included_traced_ops Sample.host |}.

(** A host on which execution fails under engine B. *)
Definition fragile_host : Host :=
  {| file_system := files;
     observe := Sample.observed_by_host;
     forward := λ e runner method inputs,
       match e with
       | QNNPACK => forward Sample.host e runner method inputs
       | FBGEMM => None
       end;
     set_has_metal_gpu_operators := set_has_metal_gpu_operators_from_spec;
     always_included_traced_ops := always_included_traced_ops Sample.host |}.

End Cases.

(* ===================================================================== *)
(** * Properties                                                         *)
(* ===================================================================== *)

(** ** The monad *)

Lemma bind_inr {A B} (m : M A) (f : A → M B) (w w' : World) (b : B) :
  (m ≫= f) w = inr (b, w') ↔ ∃ a w1, m w = inr (a, w1) ∧ f a w1 = inr (b, w').
Proof.
  unfold mbind, M_bind. split.
  - destruct (m w) as [e | [a w1]]; [discriminate | eauto].
  - intros (a & w1 & -> & ?). done.
Qed.

Lemma bind_run {A B} (m : M A) (f : A → M B) (w w1 : World) (a : A) :
  m w = inr (a, w1) → (m ≫= f) w = f a w1.
Proof. unfold mbind, M_bind. by intros ->. Qed.

Lemma for_each_acc_pure {A S} (g : A → S → S) (body : A → S → M S)
    (xs : list A) (s : S) (w : World) :
  (∀ x s, body x s w = inr (g x s, w)) →
  for_each_acc xs body s w = inr (foldl (λ s x, g x s) s xs, w).
Proof.
  intros Hbody. revert s. induction xs as [| x xs IH]; intros s; simpl.
  - done.
  - rewrite (bind_run _ _ _ _ _ (Hbody x s)). apply IH.
Qed.

(** ** std::string *)

Section StringFacts.

Import StdString.

Lemma npos_value : npos = 18446744073709551615.
Proof. reflexivity. Qed.

Lemma last_occurrence_bound c s i :
  last_occurrence c s = Some i → (i < String.length s)%nat.
Proof.
  revert i. induction s as [| a s IH]; intros i; simpl; [done |].
  destruct (last_occurrence c s) as [j |].
  - intros [= <-]. specialize (IH j eq_refl). lia.
  - destruct (Ascii.eqb a c); [intros [= <-]; lia | done].
Qed.

Lemma last_occurrence_None c s :
  last_occurrence c s = None ↔ ¬ contains_char c s.
Proof.
  unfold contains_char. induction s as [| a s IH]; simpl.
  - tauto.
  - destruct (last_occurrence c s) as [j |].
    + split; [done |]. intros Hn. exfalso. apply Hn. right.
      destruct (in_dec ascii_dec c (String.list_ascii_of_string s)) as [|Hni]; [done |].
      apply IH in Hni. done.
    + destruct (Ascii.eqb_spec a c) as [-> | Hne].
      * split; [done | intros Hn; exfalso; apply Hn; by left].
      * split; [| done]. intros _ [? | ?]; [done |]. by apply IH.
Qed.

(** [substr] at the position the driver computes never throws. *)
Lemma substr_after_last_total s c :
  substr s (size_t_add (find_last_of s c) 1)
  = Some (drop_chars (Z.to_nat (size_t_add (find_last_of s c) 1)) s).
Proof.
  unfold substr, find_last_of, to_size_t, size_t_add, size.
  destruct (last_occurrence c s) as [i |] eqn:Hi.
  - apply last_occurrence_bound in Hi.
    assert (0 ≤ (Z.of_nat i + 1) mod size_t_modulus ≤ Z.of_nat i + 1).
    { split; [apply Z.mod_pos_bound; reflexivity |].
      apply Z.mod_le; [lia | reflexivity]. }
    case_match; [apply Z.ltb_lt in H0; lia | done].
  - change ((npos + 1) mod size_t_modulus) with 0.
    case_match; [apply Z.ltb_lt in H; lia | done].
Qed.

(** With no separator in [s], [npos + 1] wraps around to [0]. *)
Lemma after_last_no_separator s c :
  ¬ contains_char c s →
  size_t_add (find_last_of s c) 1 = 0.
Proof.
  intros Hn%last_occurrence_None. unfold find_last_of. by rewrite Hn.
Qed.

Lemma split_on_last_occurrence c s :
  match last_occurrence c s with
  | None => split_on c s = [s]
  | Some i => ∃ w ws, split_on c s = w :: ws ∧ ws ≠ [] ∧
                      List.last ws EmptyString = drop_chars (S i) s
  end.
Proof.
  induction s as [| a s IH]; simpl; [done |].
  destruct (last_occurrence c s) as [i |].
  - destruct IH as (w & ws & -> & Hne & Hlast).
    destruct (Ascii.eqb a c).
    + exists EmptyString, (w :: ws). split_and!; [done | done |].
      destruct ws; [done | exact Hlast].
    + exists (String a w), ws. done.
  - rewrite IH. destruct (Ascii.eqb a c).
    + exists EmptyString, [s]. done.
    + done.
Qed.

(** What the driver records for an annotation is its simple name. *)
Lemma substr_after_last_simple_name s :
  size s < npos →
  substr s (size_t_add (find_last_of s path_separator) 1) = Some (simple_name s).
Proof.
  intros Hsize. rewrite substr_after_last_total. f_equal.
  unfold simple_name, find_last_of, to_size_t, size_t_add.
  pose proof (split_on_last_occurrence path_separator s) as Hsplit.
  destruct (last_occurrence path_separator s) as [i |] eqn:Hi.
  - apply last_occurrence_bound in Hi.
    destruct Hsplit as (w & ws & -> & Hne & Hlast).
    unfold size in Hsize. rewrite npos_value in Hsize.
    rewrite Z.mod_small by (unfold size_t_modulus; lia).
    replace (Z.to_nat (Z.of_nat i + 1)) with (S i) by lia.
    rewrite <- Hlast. destruct ws; done.
  - rewrite Hsplit. done.
Qed.

End StringFacts.

Section FindFacts.

Import StdString.

Lemma prefix_spec p s :
  String.prefix p s = true ↔ ∃ post, s = p +:+ post.
Proof.
  revert s. induction p as [| a p IH]; intros s.
  - destruct s; simpl; (split; [eauto | done]).
  - destruct s as [| b s]; simpl; [split; [done | by intros [? ?]] |].
    destruct (ascii_dec a b) as [-> | Hne].
    + rewrite IH. split; intros [post Hpost]; exists post.
      * by rewrite Hpost.
      * by injection Hpost.
    + split; [done | intros [post Hpost]; injection Hpost; congruence].
Qed.

Lemma first_occurrence_eq needle s :
  first_occurrence needle s =
  if String.prefix needle s then Some 0%nat
  else match s with
       | EmptyString => None
       | String _ s' => S <$> first_occurrence needle s'
       end.
Proof. by destruct s. Qed.

Lemma first_occurrence_None needle s :
  first_occurrence needle s = None → ¬ contains_substring needle s.
Proof.
  induction s as [| a s IH]; rewrite first_occurrence_eq.
  - destruct (String.prefix needle EmptyString) eqn:Hp; [done |].
    intros _ (pre & post & Heq). destruct pre; [| done].
    assert (String.prefix needle EmptyString = true) as Ht
      by (apply prefix_spec; eauto).
    congruence.
  - destruct (String.prefix needle (String a s)) eqn:Hp; [done |].
    destruct (first_occurrence needle s); [done |].
    intros _ (pre & post & Heq). destruct pre as [| b pre].
    + assert (String.prefix needle (String a s) = true) as Ht
        by (apply prefix_spec; eauto).
      congruence.
    + apply IH; [done |]. injection Heq as _ ->. by exists pre, post.
Qed.

Lemma first_occurrence_Some needle s i :
  first_occurrence needle s = Some i →
  contains_substring needle s ∧ (i ≤ String.length s)%nat.
Proof.
  revert i. induction s as [| a s IH]; intros i; rewrite first_occurrence_eq.
  - destruct (String.prefix needle EmptyString) eqn:Hp; [| done].
    intros [= <-]. apply prefix_spec in Hp as [post Hpost].
    split; [by exists EmptyString, post | lia].
  - destruct (String.prefix needle (String a s)) eqn:Hp.
    + intros [= <-]. apply prefix_spec in Hp as [post Hpost].
      split; [by exists EmptyString, post | lia].
    + destruct (first_occurrence needle s) as [j |]; [| done].
      intros [= <-]. destruct (IH j eq_refl) as [(pre & post & ->) Hj].
      split; [by exists (String a pre), post | simpl; lia].
Qed.

(** The test of [record_if_class], for strings a [std::string] can hold. *)
Lemma find_npos needle s :
  size s < npos →
  find s needle ≠ npos ↔ contains_substring needle s.
Proof.
  intros Hsize. unfold find, to_size_t.
  destruct (first_occurrence needle s) as [i |] eqn:Hi.
  - apply first_occurrence_Some in Hi as [Hc Hi].
    unfold size in Hsize. split; [done | intros _; lia].
  - apply first_occurrence_None in Hi. done.
Qed.

Lemma find_npos_absent needle s :
  ¬ contains_substring needle s → find s needle = npos.
Proof.
  intros Hn. unfold find, to_size_t.
  destruct (first_occurrence needle s) as [i |] eqn:Hi; [| done].
  apply first_occurrence_Some in Hi as [Hc _]. done.
Qed.

End FindFacts.

(** ** Schema-based recovery *)

Section Recovery.

Import StdString.

Lemma get_runtime_ops_and_schema_run w :
  _get_runtime_ops_and_schema w = inr (registry_of w, w).
Proof. reflexivity. Qed.

Lemma record_if_class_run type_name loaded w :
  record_if_class type_name loaded w = inr (class_of type_name ∪ loaded, w).
Proof.
  unfold record_if_class, class_of, custom_type_marker, path_separator.
  case_decide; [| by rewrite (left_id_L ∅ (∪))].
  by rewrite substr_after_last_total.
Qed.

Lemma record_arguments_run (args : list Argument) loaded w :
  for_each_acc args (λ arg, record_if_class (annotation_str arg)) loaded w
  = inr (classes_of (annotation_str <$> args) ∪ loaded, w).
Proof.
  rewrite (for_each_acc_pure (λ arg s, class_of (annotation_str arg) ∪ s))
    by (intros; apply record_if_class_run).
  do 2 f_equal. revert loaded.
  induction args as [| a args IH]; intros loaded; simpl.
  - unfold classes_of. simpl. set_solver.
  - rewrite IH. unfold classes_of. simpl. set_solver.
Qed.

Lemma foldl_union_classes reg (ops : list string) (loaded : gset string) :
  foldl (λ s op, classes_of_operator reg op ∪ s) loaded ops
  = ⋃ (classes_of_operator reg <$> ops) ∪ loaded.
Proof.
  revert loaded. induction ops as [| op ops IH]; intros loaded; simpl.
  - set_solver.
  - rewrite IH. set_solver.
Qed.

(** The recovery as a pure function of the registry and its inputs; it
    never throws and leaves the world as it was. *)
Lemma recordCustomClassesFromOpSchemas_run root_ops traced_ops loaded w :
  recordCustomClassesFromOpSchemas root_ops traced_ops loaded w
  = inr (⋃ (classes_of_operator (registry_of w)
              <$> elements (root_ops ∪ traced_ops)) ∪ loaded, w).
Proof.
  unfold recordCustomClassesFromOpSchemas.
  rewrite (bind_run _ _ _ _ _ (get_runtime_ops_and_schema_run w)).
  rewrite (for_each_acc_pure
             (λ op s, classes_of_operator (registry_of w) op ∪ s)).
  - rewrite foldl_union_classes. unfold set_insert_range.
    rewrite !list_to_set_elements_L, (left_id_L ∅ (∪)). done.
  - intros op s. unfold classes_of_operator.
    destruct (registry_of w !! op) as [schema |]; [| by rewrite (left_id_L ∅ (∪))].
    rewrite (bind_run _ _ _ _ _ (record_arguments_run _ _ _)).
    rewrite record_arguments_run. unfold schema_annotations, classes_of.
    rewrite fmap_app, union_list_app_L. do 2 f_equal. set_solver.
Qed.

Lemma elem_of_recovered reg (ops : gset string) x :
  x ∈ ⋃ (classes_of_operator reg <$> elements ops) ↔
  ∃ op schema annotation,
    op ∈ ops ∧ reg !! op = Some schema ∧
    annotation ∈ schema_annotations schema ∧ x ∈ class_of annotation.
Proof.
  rewrite elem_of_union_list. split.
  - intros (X & HX & Hx). apply list_elem_of_fmap in HX as (op & -> & Hop).
    apply elem_of_elements in Hop. unfold classes_of_operator in Hx.
    destruct (reg !! op) as [schema |] eqn:Hreg; [| set_solver].
    unfold classes_of in Hx. apply elem_of_union_list in Hx as (Y & HY & Hx).
    apply list_elem_of_fmap in HY as (ann & -> & Hann).
    by exists op, schema, ann.
  - intros (op & schema & ann & Hop & Hreg & Hann & Hx).
    exists (classes_of_operator reg op). split.
    + apply list_elem_of_fmap. exists op. by rewrite elem_of_elements.
    + unfold classes_of_operator. rewrite Hreg. unfold classes_of.
      apply elem_of_union_list. exists (class_of ann). split; [| done].
      apply list_elem_of_fmap. by exists ann.
Qed.

End Recovery.

Section RecoveryTheorems.

Import StdString.

Lemma class_of_marker annotation :
  contains_substring custom_type_marker annotation →
  size annotation < npos →
  class_of annotation = {[ simple_name annotation ]}.
Proof.
  intros Hc Hsize. unfold class_of.
  rewrite decide_True by (by apply find_npos).
  pose proof (substr_after_last_simple_name annotation Hsize) as Hs.
  rewrite substr_after_last_total in Hs. by injection Hs as ->.
Qed.

Lemma class_of_no_marker annotation :
  ¬ contains_substring custom_type_marker annotation →
  class_of annotation = ∅.
Proof.
  intros Hn. unfold class_of.
  rewrite decide_False; [done |].
  rewrite find_npos_absent by done. intros Hne. by apply Hne.
Qed.

Lemma recovered_without reg (ops : gset string) op :
  classes_of_operator reg op = ∅ →
  ⋃ (classes_of_operator reg <$> elements (ops ∖ {[op]}))
  = ⋃ (classes_of_operator reg <$> elements ops).
Proof.
  intros Hempty. apply set_eq. intros x. rewrite !elem_of_recovered.
  split.
  - intros (op' & schema & ann & Hop & ?). exists op', schema, ann. set_solver.
  - intros (op' & schema & ann & Hop & Hreg & Hann & Hx).
    exists op', schema, ann. split_and!; try done.
    destruct (decide (op' = op)) as [-> |]; [| set_solver].
    exfalso. unfold classes_of_operator in Hempty. rewrite Hreg in Hempty.
    assert (x ∈ classes_of (schema_annotations schema)) as Hin.
    { unfold classes_of. apply elem_of_union_list. exists (class_of ann).
      split; [| done]. apply list_elem_of_fmap. by exists ann. }
    rewrite Hempty in Hin. set_solver.
Qed.

Lemma recovery_without_operator w root_ops traced_ops loaded op :
  classes_of_operator (registry_of w) op = ∅ →
  recordCustomClassesFromOpSchemas (root_ops ∖ {[op]}) (traced_ops ∖ {[op]}) loaded w
  = recordCustomClassesFromOpSchemas root_ops traced_ops loaded w.
Proof.
  intros Hempty. rewrite !recordCustomClassesFromOpSchemas_run.
  replace (root_ops ∖ {[op]} ∪ traced_ops ∖ {[op]})
    with ((root_ops ∪ traced_ops) ∖ {[op]}) by set_solver.
  by rewrite recovered_without.
Qed.

(** C5: for an operator of the input set whose schema is in the registry,
    the recovery records the simple name (the text after the final path
    separator) of every argument or return annotation that contains the
    custom-type marker; when no annotation of the schema contains the marker,
    the operator contributes nothing: the result is the one obtained with
    the operator left out of the input set. *)
Theorem recovery_records_simple_names
    (w : World) (root_ops traced_ops loaded : gset string)
    (op : string) (schema : FunctionSchema) :
  op ∈ root_ops ∪ traced_ops →
  registry_of w !! op = Some schema →
  ∃ loaded',
    recordCustomClassesFromOpSchemas root_ops traced_ops loaded w
      = inr (loaded', w) ∧
    (∀ annotation,
       annotation ∈ schema_annotations schema →
       contains_substring custom_type_marker annotation →
       size annotation < npos →
       simple_name annotation ∈ loaded') ∧
    ((∀ annotation,
        annotation ∈ schema_annotations schema →
        ¬ contains_substring custom_type_marker annotation) →
     recordCustomClassesFromOpSchemas
       (root_ops ∖ {[op]}) (traced_ops ∖ {[op]}) loaded w
       = inr (loaded', w)).
Proof.
  intros Hop Hreg. eexists. split; [apply recordCustomClassesFromOpSchemas_run |].
  split.
  - intros ann Hann Hc Hsize. apply elem_of_union_l, elem_of_recovered.
    exists op, schema, ann. split_and!; try done.
    rewrite class_of_marker by done. set_solver.
  - intros Hnone. rewrite recovery_without_operator.
    + apply recordCustomClassesFromOpSchemas_run.
    + unfold classes_of_operator. rewrite Hreg. unfold classes_of.
      apply set_eq. intros x. rewrite elem_of_union_list. split; [| set_solver].
      intros (X & HX & Hx). apply list_elem_of_fmap in HX as (ann & -> & Hann).
      rewrite class_of_no_marker in Hx by auto. done.
Qed.

(** C6: the recovery never throws; an operator of the input set without a
    schema in the registry is skipped, so the result is the one obtained
    with that operator left out, and every other operator is processed: the
    result holds exactly the given set and what the annotations of the
    registered operators of the input set yield. *)
Theorem recovery_skips_missing_schema
    (w : World) (root_ops traced_ops loaded : gset string) :
  ∃ loaded',
    recordCustomClassesFromOpSchemas root_ops traced_ops loaded w
      = inr (loaded', w) ∧
    (∀ op,
       registry_of w !! op = None →
       recordCustomClassesFromOpSchemas
         (root_ops ∖ {[op]}) (traced_ops ∖ {[op]}) loaded w
         = inr (loaded', w)) ∧
    (∀ x,
       x ∈ loaded' ↔
       x ∈ loaded ∨
       ∃ op schema annotation,
         op ∈ root_ops ∪ traced_ops ∧
         registry_of w !! op = Some schema ∧
         annotation ∈ schema_annotations schema ∧
         x ∈ class_of annotation).
Proof.
  eexists. split; [apply recordCustomClassesFromOpSchemas_run |]. split.
  - intros op Hnone. rewrite recovery_without_operator.
    + apply recordCustomClassesFromOpSchemas_run.
    + unfold classes_of_operator. by rewrite Hnone.
  - intros x. rewrite elem_of_union, elem_of_recovered. tauto.
Qed.

(** C7: the recovery leaves the whole process state as it found it, so a
    second run over the same input set returns the same set as the first;
    its result depends on the process state through the registry only, and
    running it again on its own output adds nothing. *)
Theorem recovery_rerun_identical
    (w : World) (root_ops traced_ops loaded : gset string) :
  ∃ loaded',
    (first ← recordCustomClassesFromOpSchemas root_ops traced_ops loaded;
     second ← recordCustomClassesFromOpSchemas root_ops traced_ops loaded;
     mret (first, second)) w = inr ((loaded', loaded'), w) ∧
    (∀ w2,
       jit_operators w2 = jit_operators w →
       dispatcher_operators w2 = dispatcher_operators w →
       recordCustomClassesFromOpSchemas root_ops traced_ops loaded w2
         = inr (loaded', w2)) ∧
    recordCustomClassesFromOpSchemas root_ops traced_ops loaded' w
      = inr (loaded', w).
Proof.
  eexists. split_and!.
  - rewrite (bind_run _ _ _ _ _ (recordCustomClassesFromOpSchemas_run _ _ _ _)).
    rewrite (bind_run _ _ _ _ _ (recordCustomClassesFromOpSchemas_run _ _ _ _)).
    reflexivity.
  - intros w2 Hjit Hdisp. rewrite recordCustomClassesFromOpSchemas_run.
    unfold registry_of, _get_runtime_ops_and_schema, mbind, M_bind, get_world, mret, M_ret.
    by rewrite Hjit, Hdisp.
  - rewrite recordCustomClassesFromOpSchemas_run. f_equal. f_equal. set_solver.
Qed.

(** C10: for an annotation that contains the marker and no ['.'], the
    position after the last ['.'] is [npos + 1 = 0], so [record_if_class]
    inserts the whole annotation; the recovery therefore puts the whole
    annotation into the loaded classes. *)
Theorem recovery_without_separator_records_whole_annotation
    (annotation : string) :
  contains_substring custom_type_marker annotation →
  ¬ contains_char path_separator annotation →
  size annotation < npos →
  size_t_add (find_last_of annotation path_separator) 1 = 0 ∧
  (∀ loaded w,
     record_if_class annotation loaded w = inr ({[annotation]} ∪ loaded, w)) ∧
  (∀ w root_ops traced_ops loaded op schema,
     op ∈ root_ops ∪ traced_ops →
     registry_of w !! op = Some schema →
     annotation ∈ schema_annotations schema →
     ∃ loaded',
       recordCustomClassesFromOpSchemas root_ops traced_ops loaded w
         = inr (loaded', w) ∧
       annotation ∈ loaded').
Proof.
  intros Hc Hsep Hsize.
  pose proof (after_last_no_separator _ _ Hsep) as Hpos.
  assert (class_of annotation = {[annotation]}) as Hclass.
  { unfold class_of. rewrite decide_True by (by apply find_npos).
    by rewrite Hpos. }
  split_and!.
  - done.
  - intros loaded w. by rewrite record_if_class_run, Hclass.
  - intros w root_ops traced_ops loaded op schema Hop Hreg Hann.
    eexists. split; [apply recordCustomClassesFromOpSchemas_run |].
    apply elem_of_union_l, elem_of_recovered.
    exists op, schema, annotation. split_and!; try done.
    rewrite Hclass. set_solver.
Qed.

End RecoveryTheorems.

(** ** Stretches of observed work *)

Section Stretches.

Context (host : Host).

Lemma replay_app live unobserved es1 es2 s :
  replay host live unobserved (es1 ++ es2) s
  = replay host live unobserved es2 (replay host live unobserved es1 s).
Proof. unfold replay. by rewrite foldl_app. Qed.

Lemma extends_refl P w : extends host P w w [].
Proof. split; try done. by rewrite app_nil_r. Qed.

Lemma extends_trans P w w1 w2 es1 es2 :
  extends host P w w1 es1 → extends host P w1 w2 es2 →
  extends host P w w2 (es1 ++ es2).
Proof.
  intros [] []. split; try congruence.
  - rewrite ext_log1, ext_log0. by rewrite app_assoc.
  - apply Forall_app. split; [done |].
    eapply Forall_impl; [done |]. simpl. intros en [? ?]. split; congruence.
  - rewrite replay_app. congruence.
Qed.

Lemma extends_weaken (P Q : Event → Prop) w w' es :
  (∀ e, P e → Q e) → extends host P w w' es → extends host Q w w' es.
Proof.
  intros HPQ []. split; try done.
  eapply Forall_impl; [done |]. simpl. intros en [? ?]. auto.
Qed.

Lemma perform_run a w : perform host a w = inr (tt, performed host a w).
Proof. reflexivity. Qed.

Lemma performed_extends (P : Event → Prop) a w :
  P (E_action a) →
  extends host P w (performed host a w)
    [{| active_engine := qengine w; event := E_action a |}].
Proof. intros HP. split; try done. by repeat constructor. Qed.

Lemma emit_visit_extends (P : Event → Prop) origin t w :
  P (E_visit origin t) →
  ∃ w', emit (E_visit origin t) w = inr (tt, w') ∧
        extends host P w w'
          [{| active_engine := qengine w; event := E_visit origin t |}].
Proof. intros HP. eexists. split; [done |]. split; try done. by repeat constructor. Qed.

Lemma runs_ret {A} P (a : A) : runs host P (mret a).
Proof. intros w a' w' [= <- <-]. exists []. apply extends_refl. Qed.

Lemma runs_throw {A} P e : runs host P (@throw A e).
Proof. intros w a w' [=]. Qed.

Lemma runs_bind {A B} P (m : M A) (f : A → M B) :
  runs host P m → (∀ a, runs host P (f a)) → runs host P (m ≫= f).
Proof.
  intros Hm Hf w b w' (a & w1 & H1 & H2)%bind_inr.
  destruct (Hm _ _ _ H1) as [es1 ?]. destruct (Hf _ _ _ _ H2) as [es2 ?].
  exists (es1 ++ es2). by eapply extends_trans.
Qed.

Lemma runs_weaken {A} (P Q : Event → Prop) (m : M A) :
  (∀ e, P e → Q e) → runs host P m → runs host Q m.
Proof.
  intros HPQ Hm w a w' Hrun. destruct (Hm _ _ _ Hrun) as [es ?].
  exists es. by eapply extends_weaken.
Qed.

Lemma runs_for_each {A} P (xs : list A) (body : A → M unit) :
  (∀ x, runs host P (body x)) → runs host P (for_each xs body).
Proof.
  intros Hbody. induction xs as [| x xs IH]; simpl.
  - apply runs_ret.
  - apply runs_bind; [apply Hbody | intros _; apply IH].
Qed.

Lemma runs_perform (P : Event → Prop) a :
  P (E_action a) → runs host P (perform host a).
Proof.
  intros HP w [] w'. rewrite perform_run. intros [= <-].
  eexists. by apply performed_extends.
Qed.

Lemma runs_emit_visit (P : Event → Prop) origin t :
  P (E_visit origin t) → runs host P (emit (E_visit origin t)).
Proof.
  intros HP w [] w' Hrun.
  destruct (emit_visit_extends P origin t w HP) as (w2 & Hw2 & Hext).
  rewrite Hw2 in Hrun. injection Hrun as <-. eauto.
Qed.

Lemma runs_consume_tensor (P : Event → Prop) t :
  (∀ c, P (E_action (A_call c))) → runs host P (consume_tensor host t).
Proof.
  intros HP. unfold consume_tensor.
  apply runs_bind; [by apply runs_perform | intros _; by apply runs_perform].
Qed.

Lemma runs_for_each_tensor_in_bundled_inputs (P : Event → Prop) runner :
  (∀ c, P (E_action (A_call c))) → (∀ t, P (E_visit BundledInput t)) →
  runs host P (for_each_tensor_in_bundled_inputs runner (consume_tensor host)).
Proof.
  intros Hcall Hvisit. apply runs_for_each. intros t.
  apply runs_bind; [by apply runs_emit_visit |].
  intros _. by apply runs_consume_tensor.
Qed.

Lemma runs_for_each_tensor_in_ivalue (P : Event → Prop) origin v :
  (∀ c, P (E_action (A_call c))) → (∀ t, P (E_visit origin t)) →
  runs host P (for_each_tensor_in_ivalue origin v (consume_tensor host)).
Proof.
  intros Hcall Hvisit. apply runs_for_each. intros t.
  apply runs_bind; [by apply runs_emit_visit |].
  intros _. by apply runs_consume_tensor.
Qed.

Lemma runs_MobileModelRunner (P : Event → Prop) path permissive :
  P (E_action (A_load path permissive)) →
  runs host P (MobileModelRunner host path permissive).
Proof.
  intros HP. unfold MobileModelRunner.
  destruct (file_system host path) as [b |]; [| apply runs_throw].
  destruct (permissive || loads_in_standard_mode b); [| apply runs_throw].
  apply runs_bind; [by apply runs_perform | intros _; apply runs_ret].
Qed.

Lemma runs_run_with_inputs (P : Event → Prop) runner method inputs :
  P (E_action (A_run method inputs)) →
  runs host P (run_with_inputs host runner method inputs).
Proof.
  intros HP w results w' Hrun. unfold run_with_inputs in Hrun.
  apply bind_inr in Hrun as (w0 & w1 & [= <- <-] & Hrun).
  destruct (forward host (qengine w) runner method inputs); [| done].
  revert Hrun. apply runs_bind; [by apply runs_perform | intros _; apply runs_ret].
Qed.

End Stretches.

(** ** One execution pass *)

Section Pass.

Context (host : Host).

Lemma run_model_load_inv path acc w b acc' w' :
  run_model_load host path acc w = inr ((b, acc'), w') →
  file_system host path = Some b ∧
  acc' = loaded_accumulators b acc ∧
  w' = performed host (A_load path true) w.
Proof.
  unfold run_model_load, MobileModelRunner.
  intros (b0 & w1 & Hload & [= <- <- <-])%bind_inr.
  destruct (file_system host path) as [b1 |]; [| done].
  simpl in Hload. rewrite (bind_run _ _ _ _ _ (perform_run host _ _)) in Hload.
  by injection Hload as <- <-.
Qed.

Lemma run_model_load_run path acc w b :
  file_system host path = Some b →
  run_model_load host path acc w
  = inr ((b, loaded_accumulators b acc), performed host (A_load path true) w).
Proof.
  intros Hfs. unfold run_model_load, MobileModelRunner. rewrite Hfs. done.
Qed.

Lemma pass_event_call c : pass_event (E_action (A_call c)).
Proof. done. Qed.

Lemma pass_event_visit origin t : pass_event (E_visit origin t).
Proof. done. Qed.

Lemma runs_results_walk (results : list IValue) :
  runs host pass_event
    (for_each results (λ result,
       for_each_tensor_in_ivalue InferenceResult result (consume_tensor host))).
Proof.
  apply runs_for_each. intros result.
  apply runs_for_each_tensor_in_ivalue; [apply pass_event_call | ].
  intros t. apply pass_event_visit.
Qed.

Lemma run_model_classify_inv path b acc w acc' w' :
  run_model_classify host path b acc w = inr (acc', w') →
  acc' = classified host acc ∧
  ∃ entries, extends host pass_event w w' entries.
Proof.
  unfold run_model_classify, classified.
  destruct (set_has_metal_gpu_operators host (acc_root_ops acc)).
  - intros (u & w1 & Hwalk & [= <- <-])%bind_inr. split; [done |].
    revert Hwalk. apply runs_for_each_tensor_in_bundled_inputs; done.
  - intros (runner & w1 & Hload & (u & w2 & Hwalk & Hrest)%bind_inr)%bind_inr.
    apply bind_inr in Hrest as (u' & w3 & Hexec & [= <- <-]).
    split; [done |].
    apply runs_MobileModelRunner with (P := pass_event) in Hload as [es1 He1];
      [| done].
    apply runs_for_each_tensor_in_bundled_inputs with (P := pass_event)
      in Hwalk as [es2 He2]; [| done | done].
    assert (∃ es3, extends host pass_event w2 w3 es3) as [es3 He3].
    { revert Hexec. destruct (has_new_style_bundled_inputs runner).
      - apply runs_for_each. intros entry.
        apply runs_bind; [by apply runs_run_with_inputs |].
        intros results. apply runs_results_walk.
      - apply runs_bind.
        + unfold get_all_bundled_inputs_or_throw.
          destruct (get_all_bundled_inputs runner);
            [apply runs_ret | apply runs_throw].
        + intros inputs. apply runs_bind; [by apply runs_run_with_inputs |].
          intros results. apply runs_results_walk. }
    exists (es1 ++ es2 ++ es3).
    eapply extends_trans; [done |]. by eapply extends_trans.
Qed.

(** A pass that returns has loaded the bundle at [path], left in the
    accumulators what the classification of the bundle dictates, and done
    its work in one stretch after the permissive load. *)
Lemma run_model_inv path acc w acc' w' :
  run_model host path acc w = inr (acc', w') →
  ∃ b entries,
    file_system host path = Some b ∧
    acc' = classified host (loaded_accumulators b acc) ∧
    extends host pass_event (performed host (A_load path true) w) w' entries.
Proof.
  unfold run_model.
  intros ([b acc1] & w1 & (Hfs & -> & ->)%run_model_load_inv & Hc)%bind_inr.
  apply run_model_classify_inv in Hc as [-> [entries Hext]]. eauto.
Qed.

(** The walk over the bundled-input tensors always completes; the hook is
    applied to each of them, in order, and to nothing else. *)
Lemma bundled_inputs_walk (tensors : list Tensor) w :
  ∃ w',
    for_each tensors
      (λ t, emit (E_visit BundledInput t) ;; consume_tensor host t) w
      = inr (tt, w') ∧
    extends host idle_pass_event w w' (walk_entries (qengine w) tensors).
Proof.
  revert w. induction tensors as [| t tensors IH]; intros w.
  - exists w. split; [done |]. apply extends_refl.
  - destruct (emit_visit_extends host idle_pass_event BundledInput t w eq_refl)
      as (w1 & Hemit & Hext1).
    pose proof (performed_extends host idle_pass_event (A_call (cpu t)) w1 I)
      as Hext2.
    pose proof (performed_extends host idle_pass_event
                  (A_call (copy_ (tensor_dtype t) (tensor_dtype t)))
                  (performed host (A_call (cpu t)) w1) I) as Hext3.
    pose proof (extends_trans _ _ _ _ _ _ _ Hext2 Hext3) as Hext23.
    pose proof (extends_trans _ _ _ _ _ _ _ Hext1 Hext23) as Hext13.
    destruct (IH (performed host
                    (A_call (copy_ (tensor_dtype t) (tensor_dtype t)))
                    (performed host (A_call (cpu t)) w1)))
      as (w' & Hrun & Hext).
    change (qengine (performed host _ (performed host _ w1)))
      with (qengine w1) in Hext.
    change (qengine (performed host _ w1)) with (qengine w1) in Hext13.
    exists w'. split.
    + simpl. rewrite (bind_run _ _ w
        (performed host (A_call (copy_ (tensor_dtype t) (tensor_dtype t)))
           (performed host (A_call (cpu t)) w1)) tt); [exact Hrun |].
      rewrite (bind_run _ _ _ _ _ Hemit). reflexivity.
    + pose proof (extends_trans _ _ _ _ _ _ _ Hext13 Hext) as Hall.
      rewrite (ext_qengine _ _ _ _ _ Hext1) in Hall. exact Hall.
Qed.

Lemma walk_entries_visited e tensors :
  visited (walk_entries e tensors) = (λ t, (BundledInput, t)) <$> tensors.
Proof. induction tensors as [| t tensors IH]; simpl; [done | by rewrite IH]. Qed.

Lemma walk_entries_method_runs e tensors :
  method_runs (walk_entries e tensors) = [].
Proof. induction tensors as [| t tensors IH]; [done | exact IH]. Qed.

(** A pass over a bundle classified as GPU-oriented. *)
Lemma run_model_gpu path b acc w :
  file_system host path = Some b →
  set_has_metal_gpu_operators host (get_root_operators b) = true →
  ∃ w',
    run_model host path acc w
      = inr (classified host (loaded_accumulators b acc), w') ∧
    extends host idle_pass_event
      (performed host (A_load path true) w) w'
      (walk_entries (qengine w) (bundled_input_tensors b)).
Proof.
  intros Hfs Hgpu.
  destruct (bundled_inputs_walk (bundled_input_tensors b)
              (performed host (A_load path true) w))
    as (w' & Hwalk & Hext).
  exists w'. split; [| done].
  unfold run_model. rewrite (bind_run _ _ _ _ _ (run_model_load_run _ acc w _ Hfs)).
  unfold run_model_classify, classified. simpl. rewrite Hgpu.
  unfold for_each_tensor_in_bundled_inputs.
  by rewrite (bind_run _ _ _ _ _ Hwalk).
Qed.

End Pass.

(** ** The session *)

Section Session.

Context (host : Host).

Lemma prepared_qengine w : qengine (prepared w) = QNNPACK.
Proof. reflexivity. Qed.

Lemma prepared_unobserved w : unobserved_operator_list (prepared w) = [].
Proof. reflexivity. Qed.

Lemma prepared_live w k : live (prepared w) k = true.
Proof. by destruct k. Qed.

Lemma prepared_slots w : slots (prepared w) = slots w.
Proof. reflexivity. Qed.

Lemma prepared_log w : log (prepared w) = log w ++ setup_entries (qengine w).
Proof. unfold prepared, setup_entries. simpl. by rewrite <- !app_assoc. Qed.

Lemma prepared_registry w : registry_of (prepared w) = registry_of w.
Proof. reflexivity. Qed.

Lemma performs_perform c : performs host (perform host (A_call c)) [c].
Proof. intros w. reflexivity. Qed.

Lemma performs_seq (m1 m2 : M unit) calls1 calls2 :
  performs host m1 calls1 → performs host m2 calls2 →
  performs host (m1 ;; m2) (calls1 ++ calls2).
Proof.
  intros H1 H2 w. rewrite (bind_run _ _ _ _ _ (H1 w)), foldl_app. apply H2.
Qed.

Lemma performs_for_each {A} (xs : list A) (body : A → M unit)
    (calls : A → list TensorCall) :
  (∀ x, performs host (body x) (calls x)) →
  performs host (for_each xs body) (flat_map calls xs).
Proof.
  intros Hbody. induction xs as [| x xs IH]; simpl.
  - intros w. reflexivity.
  - by apply performs_seq.
Qed.

Lemma call_setup_methods_performs :
  performs host (call_setup_methods host) warm_up_calls.
Proof.
  assert (∃ calls, performs host (call_setup_methods host) calls ∧
                   calls = warm_up_calls) as (calls & Hcalls & <-); [| done].
  eexists. split.
  - unfold call_setup_methods.
    do 13 (eapply performs_seq; [apply performs_perform |]).
    eapply performs_seq.
    + apply performs_for_each. intros dtype.
      do 6 (eapply performs_seq; [apply performs_perform |]).
      apply performs_perform.
    + eapply performs_seq; apply performs_perform.
  - reflexivity.
Qed.

Lemma trace_run_setup_run w :
  trace_run_setup host w = inr (tt, warmed_up host w).
Proof.
  unfold trace_run_setup.
  do 6 (erewrite bind_run; [| reflexivity]).
  rewrite call_setup_methods_performs. reflexivity.
Qed.

Lemma performed_calls_extends (calls : list TensorCall) w :
  extends host is_call w
    (foldl (λ w c, performed host (A_call c) w) w calls)
    ((λ c, {| active_engine := qengine w; event := E_action (A_call c) |})
       <$> calls).
Proof.
  revert w. induction calls as [| c calls IH]; intros w; simpl.
  - apply extends_refl.
  - change (?x :: ?l) with ([x] ++ l).
    eapply extends_trans; [by apply performed_extends |].
    apply (IH (performed host (A_call c) w)).
Qed.

Lemma warmed_up_extends w :
  extends host is_call (prepared w) (warmed_up host w) warm_up_entries.
Proof. apply performed_calls_extends. Qed.

Lemma engine_selected_run e w :
  setQEngine e w = inr (tt, engine_selected e w).
Proof. reflexivity. Qed.

Lemma quiet_trans w w1 w2 es1 es2 :
  quiet w w1 es1 → quiet w1 w2 es2 → quiet w w2 (es1 ++ es2).
Proof.
  intros [] []. split; try congruence.
  rewrite quiet_log1, quiet_log0. by rewrite app_assoc.
Qed.

Lemma emit_quiet ev w :
  ∃ w', emit ev w = inr (tt, w') ∧ live w' = live w ∧
        quiet w w' [{| active_engine := qengine w; event := ev |}].
Proof. eexists. by split_and!. Qed.

Lemma getCalledOperators_run w :
  ∃ w', getCalledOperators w = inr (called_operators (slots w), w') ∧
        quiet w w' [{| active_engine := qengine w; event := E_read OperatorCall |}].
Proof. eexists. by split_and!. Qed.

Lemma getCalledKernelTags_run w :
  ∃ w', getCalledKernelTags w = inr (called_kernel_tags (slots w), w') ∧
        quiet w w' [{| active_engine := qengine w; event := E_read KernelDType |}].
Proof. eexists. by split_and!. Qed.

Lemma getLoadedClasses_run w :
  ∃ w', getLoadedClasses w = inr (loaded_classes (slots w), w') ∧
        quiet w w' [{| active_engine := qengine w; event := E_read CustomClass |}].
Proof. eexists. by split_and!. Qed.

Lemma getBuildFeatures_run w :
  ∃ w', getBuildFeatures w = inr (build_features (slots w), w') ∧
        quiet w w' [{| active_engine := qengine w; event := E_read BuildFeature |}].
Proof. eexists. by split_and!. Qed.

Lemma detach_run k w :
  ∃ w', detach k w = inr (tt, w') ∧
        quiet w w' [{| active_engine := qengine w; event := E_detach k |}].
Proof. eexists. by split_and!. Qed.

Lemma registry_of_quiet w w' entries :
  quiet w w' entries → registry_of w' = registry_of w.
Proof.
  intros [].
  unfold registry_of, _get_runtime_ops_and_schema, mbind, M_bind, get_world,
    mret, M_ret.
  by rewrite quiet_jit0, quiet_dispatcher0.
Qed.

Lemma trace_run_collect_run acc w :
  ∃ w',
    trace_run_collect host acc w = inr (collected host acc w, w') ∧
    quiet w w' (collect_entries (qengine w)).
Proof.
  unfold trace_run_collect, collected.
  destruct (getCalledOperators_run w) as (w1 & Hrun1 & Hq1).
  rewrite (bind_run _ _ _ _ _ Hrun1).
  rewrite (bind_run _ _ _ _ _ (recordCustomClassesFromOpSchemas_run _ _ _ _)).
  destruct (getCalledKernelTags_run w1) as (w2 & Hrun2 & Hq2).
  rewrite (bind_run _ _ _ _ _ Hrun2).
  destruct (getLoadedClasses_run w2) as (w3 & Hrun3 & Hq3).
  rewrite (bind_run _ _ _ _ _ Hrun3).
  destruct (getBuildFeatures_run w3) as (w4 & Hrun4 & Hq4).
  rewrite (bind_run _ _ _ _ _ Hrun4).
  destruct (detach_run BuildFeature w4) as (w5 & Hrun5 & Hq5).
  rewrite (bind_run _ _ _ _ _ Hrun5).
  destruct (detach_run CustomClass w5) as (w6 & Hrun6 & Hq6).
  rewrite (bind_run _ _ _ _ _ Hrun6).
  destruct (detach_run KernelDType w6) as (w7 & Hrun7 & Hq7).
  rewrite (bind_run _ _ _ _ _ Hrun7).
  destruct (detach_run OperatorCall w7) as (w8 & Hrun8 & Hq8).
  rewrite (bind_run _ _ _ _ _ Hrun8).
  pose proof (quiet_trans _ _ _ _ _ Hq1 Hq2) as Hq12.
  pose proof (quiet_trans _ _ _ _ _ Hq12 Hq3) as Hq13.
  pose proof (quiet_trans _ _ _ _ _ Hq13 Hq4) as Hq14.
  pose proof (quiet_trans _ _ _ _ _ Hq14 Hq5) as Hq15.
  pose proof (quiet_trans _ _ _ _ _ Hq15 Hq6) as Hq16.
  pose proof (quiet_trans _ _ _ _ _ Hq16 Hq7) as Hq17.
  pose proof (quiet_trans _ _ _ _ _ Hq17 Hq8) as Hq18.
  exists w8. split.
  - rewrite (registry_of_quiet _ _ _ Hq1).
    rewrite (quiet_slots _ _ _ Hq1), (quiet_slots _ _ _ Hq12),
      (quiet_slots _ _ _ Hq13).
    reflexivity.
  - rewrite (quiet_qengine _ _ _ Hq1), (quiet_qengine _ _ _ Hq12),
      (quiet_qengine _ _ _ Hq13), (quiet_qengine _ _ _ Hq14),
      (quiet_qengine _ _ _ Hq15), (quiet_qengine _ _ _ Hq16),
      (quiet_qengine _ _ _ Hq17) in Hq18.
    exact Hq18.
Qed.

(** A session that returns went through two passes over the same path, the
    first from the warmed-up world, the second after selecting engine B, and
    built its result from the accumulators and stores the second pass left. *)
Lemma trace_run_inv path w m w' :
  trace_run host path w = inr (m, w') →
  ∃ acc1 w2 acc2 w4,
    run_model host path empty_accumulators (warmed_up host w) = inr (acc1, w2) ∧
    run_model host path acc1 (engine_selected FBGEMM w2) = inr (acc2, w4) ∧
    m = collected host acc2 w4 ∧
    trace_run_collect host acc2 w4 = inr (m, w').
Proof.
  unfold trace_run. rewrite (bind_run _ _ _ _ _ (trace_run_setup_run w)).
  intros (acc1 & w2 & Hpass1 & Hrest)%bind_inr.
  rewrite (bind_run _ _ _ _ _ (engine_selected_run FBGEMM w2)) in Hrest.
  apply bind_inr in Hrest as (acc2 & w4 & Hpass2 & Hcollect).
  exists acc1, w2, acc2, w4. split_and!; try done.
  destruct (trace_run_collect_run acc2 w4) as (w5 & Hrun & _).
  rewrite Hrun in Hcollect. by injection Hcollect as <- _.
Qed.

End Session.

(** ** What the observers' stores hold *)

Section Stores.

Context (host : Host).

Lemma set_insert_range_comm (s : gset string) (r1 r2 : list string) :
  set_insert_range (set_insert_range s r1) r2
  = set_insert_range (set_insert_range s r2) r1.
Proof. unfold set_insert_range. set_solver. Qed.

Lemma set_insert_range_idemp (s : gset string) (r : list string) :
  set_insert_range (set_insert_range s r) r = set_insert_range s r.
Proof. unfold set_insert_range. set_solver. Qed.

Lemma filter_nothing_suppressed (ops : list string) :
  filter (λ op, op ∉ []) ops = ops.
Proof.
  induction ops as [| op ops IH]; [done |].
  rewrite filter_cons_True by apply not_elem_of_nil. by rewrite IH.
Qed.

Lemma replay_cons live unobserved en entries s :
  replay host live unobserved (en :: entries) s
  = replay host live unobserved entries
      (match event en with
       | E_action a =>
           merge_recording live unobserved s (observe host (active_engine en) a)
       | _ => s
       end).
Proof. reflexivity. Qed.

Lemma recorded_operators_cons en entries :
  recorded_operators host (en :: entries)
  = match event en with
    | E_action a => list_to_set (rec_operators (observe host (active_engine en) a))
    | _ => ∅
    end ∪ recorded_operators host entries.
Proof. reflexivity. Qed.

Lemma recorded_operators_app es1 es2 :
  recorded_operators host (es1 ++ es2)
  = recorded_operators host es1 ∪ recorded_operators host es2.
Proof.
  unfold recorded_operators. by rewrite fmap_app, union_list_app_L.
Qed.

(** With the operator-call observer live and nothing suppressed, its store
    gains exactly the operators of the replayed actions. *)
Lemma replay_called_operators live entries s :
  live OperatorCall = true →
  called_operators (replay host live [] entries s)
  = called_operators s ∪ recorded_operators host entries.
Proof.
  intros Hlive. revert s. induction entries as [| en entries IH]; intros s.
  - unfold recorded_operators. simpl. set_solver.
  - rewrite replay_cons, IH, recorded_operators_cons.
    destruct (event en); try set_solver.
    simpl. rewrite Hlive, filter_nothing_suppressed.
    unfold set_insert_range. set_solver.
Qed.

Lemma kernel_tags_included_refl t : kernel_tags_included t t.
Proof. intros tag dtypes H. eauto. Qed.








Lemma map_insert_range_union {V} (m : gmap string V) (l : list (string * V)) :
  map_insert_range m l = m ∪ list_to_map l.
Proof.
  unfold map_insert_range. revert m.
  induction l as [| [k v] l IH]; intros m; simpl.
  - by rewrite (right_id_L ∅ (∪)).
  - rewrite IH. unfold emplace. apply map_eq. intros i.
    rewrite !lookup_union. simpl.
    destruct (m !! k) as [v' |] eqn:Hk.
    + destruct (decide (k = i)) as [<- | Hne].
      * rewrite Hk. by rewrite !union_Some_l.
      * by rewrite lookup_insert_ne.
    + destruct (decide (k = i)) as [<- | Hne].
      * rewrite !lookup_insert_eq, Hk. by rewrite !union_Some_l.
      * by rewrite !lookup_insert_ne.
Qed.

(** Merging the kernel-dtype store into the accumulated tags: a tag the
    accumulator already holds keeps its value, every other tag of the store
    comes with the store's dtype set. *)
Lemma map_insert_range_map_to_list (m m2 : kernel_tags_type) :
  map_insert_range m (map_to_list m2) = m ∪ m2.
Proof. by rewrite map_insert_range_union, list_to_map_to_list. Qed.

End Stores.

(** ** The trace manifest *)

Section Manifest.

Context (host : Host).

Lemma pass_accumulators path acc w acc' w' b :
  file_system host path = Some b →
  run_model host path acc w = inr (acc', w') →
  acc' = classified host (loaded_accumulators b acc).
Proof.
  intros Hfs (b' & entries & Hfs' & -> & _)%run_model_inv. congruence.
Qed.

Lemma classified_gpu acc :
  set_has_metal_gpu_operators host (acc_root_ops acc) = true →
  classified host acc
  = {| acc_root_ops := set_insert_range (acc_root_ops acc) gpu_metal_operators;
       acc_enabled_backends := {["Metal GPU"]} ∪ acc_enabled_backends acc;
       acc_called_kernel_tags :=
         <["__unused__" := {["Float"]}]> (acc_called_kernel_tags acc) |}.
Proof. unfold classified. by intros ->. Qed.

(** C3: whatever the operator-call observer recorded, the manifest of a
    session that returns lists every operator of the always-included
    baseline among its traced operators. *)
Theorem baseline_in_traced_operators
    (path : string) (w w' : World) (m : TracerResult) :
  trace_run host path w = inr (m, w') →
  list_to_set (always_included_traced_ops host) ⊆ traced_operators m.
Proof.
  intros (acc1 & w2 & acc2 & w4 & _ & _ & -> & _)%trace_run_inv.
  unfold collected, set_insert_range. simpl. set_solver.
Qed.

(** C1: with the classifier the specification describes, a pass over a
    bundle whose declared root operators intersect the GPU reference table
    always completes and runs no method: after the permissive load it only
    walks the bundled-input tensors, applying the hook to each of them and to
    nothing else; it leaves the declared operators joined with the reference
    table in the root operators, adds ["Metal GPU"] to the enabled backends
    and sets the one entry ["__unused__"] to [{"Float"}] in the kernel tags.
    The manifest of a session over such a bundle therefore has the reference
    table among its root operators, ["Metal GPU"] enabled and that entry. *)
Theorem gpu_bundle_is_not_executed (path : string) (b : Bundle) :
  (∀ ops, set_has_metal_gpu_operators host ops
          = set_has_metal_gpu_operators_from_spec ops) →
  file_system host path = Some b →
  get_root_operators b ∩ list_to_set gpu_metal_operators ≠ ∅ →
  (∀ acc w,
     ∃ acc' w' entries,
       run_model host path acc w = inr (acc', w') ∧
       log w' = log w ++ pass_start (qengine w) path :: entries ∧
       method_runs entries = [] ∧
       Forall (λ en, idle_pass_event (event en)) entries ∧
       visited entries = (λ t, (BundledInput, t)) <$> bundled_input_tensors b ∧
       acc_root_ops acc'
         = get_root_operators b ∪ list_to_set gpu_metal_operators ∧
       acc_enabled_backends acc' = {["Metal GPU"]} ∪ acc_enabled_backends acc ∧
       acc_called_kernel_tags acc'
         = <["__unused__" := {["Float"]}]> (acc_called_kernel_tags acc)) ∧
  (∀ w m w',
     trace_run host path w = inr (m, w') →
     list_to_set gpu_metal_operators ⊆ root_ops m ∧
     "Metal GPU" ∈ enabled_backends m ∧
     called_kernel_tags_result m !! "__unused__" = Some {["Float"]}).
Proof.
  intros Hspec Hfs Hmeet.
  assert (set_has_metal_gpu_operators host (get_root_operators b) = true) as Hgpu.
  { rewrite Hspec. unfold set_has_metal_gpu_operators_from_spec.
    by apply bool_decide_eq_true. }
  split.
  - intros acc w.
    destruct (run_model_gpu host path b acc w Hfs Hgpu) as (w' & Hrun & Hext).
    exists (classified host (loaded_accumulators b acc)), w',
      (walk_entries (qengine w) (bundled_input_tensors b)).
    split_and!.
    + exact Hrun.
    + rewrite (ext_log _ _ _ _ _ Hext). simpl. by rewrite <- app_assoc.
    + apply walk_entries_method_runs.
    + eapply Forall_impl; [apply (ext_entries _ _ _ _ _ Hext) |].
      simpl. by intros en [_ ?].
    + apply walk_entries_visited.
    + by rewrite classified_gpu.
    + by rewrite classified_gpu.
    + by rewrite classified_gpu.
  - intros w m w' (acc1 & w2 & acc2 & w4 & _ & Hpass2 & -> & _)%trace_run_inv.
    rewrite (pass_accumulators _ _ _ _ _ _ Hfs Hpass2).
    rewrite classified_gpu by done. unfold collected.
    cbn [root_ops enabled_backends called_kernel_tags_result
         acc_root_ops acc_enabled_backends acc_called_kernel_tags].
    split_and!.
    + unfold set_insert_range. apply union_subseteq_r.
    + apply elem_of_union_l. by apply elem_of_singleton.
    + rewrite map_insert_range_map_to_list.
      apply lookup_union_Some_l, lookup_insert_eq.
Qed.

End Manifest.

(** ** The accumulators across the two passes *)

Section Accumulation.

Context (host : Host).

Lemma new_entries_app w w' entries :
  log w' = log w ++ entries → new_entries w w' = entries.
Proof. intros Hlog. unfold new_entries. by rewrite Hlog, drop_app_length. Qed.

(** A pass as one stretch: the permissive load, then pass events. *)
Lemma run_model_stretch path acc w acc' w' :
  run_model host path acc w = inr (acc', w') →
  ∃ entries,
    new_entries w w' = pass_start (qengine w) path :: entries ∧
    extends host (λ _, True) w w' (pass_start (qengine w) path :: entries) ∧
    Forall (λ en, active_engine en = qengine w ∧ pass_event (event en)) entries.
Proof.
  intros (b & entries & _ & _ & Hext)%run_model_inv.
  pose proof (performed_extends host (λ _, True) (A_load path true) w I) as Hload.
  pose proof (extends_trans _ _ _ _ _ _ _ Hload
                (extends_weaken _ _ (λ _, True) _ _ _ (λ _ _, I) Hext)) as Hall.
  exists entries. split_and!.
  - apply new_entries_app. apply (ext_log _ _ _ _ _ Hall).
  - exact Hall.
  - apply (ext_entries _ _ _ _ _ Hext).
Qed.

Lemma classified_twice b acc :
  accumulators_included
    (classified host (loaded_accumulators b acc))
    (classified host
       (loaded_accumulators b (classified host (loaded_accumulators b acc)))).
Proof.
  unfold classified, loaded_accumulators. simpl.
  destruct (set_has_metal_gpu_operators host (get_root_operators b)); simpl.
  - split; simpl; [done | set_solver |].
    rewrite insert_insert_eq. apply kernel_tags_included_refl.
  - split; simpl; [done | set_solver | apply kernel_tags_included_refl].
Qed.

(** C4 as the code has it: [run_model] assigns the declared root operators
    to [root_ops] when a pass starts, so between that assignment and the
    classification [root_ops] can hold less than at the end of the first
    pass; enabled backends and kernel tags are kept by the assignment.  At
    the end of the second pass, and in the manifest built from it, every
    root operator, every enabled backend and every kernel tag with all its
    dtypes that was present at the end of the first pass is present. *)
Theorem accumulators_grow_across_passes
    (path : string) (w w' : World) (m : TracerResult) :
  trace_run host path w = inr (m, w') →
  ∃ acc1 w2 acc2 w4,
    run_model host path empty_accumulators (warmed_up host w) = inr (acc1, w2) ∧
    run_model host path acc1 (engine_selected FBGEMM w2) = inr (acc2, w4) ∧
    accumulators_included acc1 acc2 ∧
    root_ops m = acc_root_ops acc2 ∧
    enabled_backends m = acc_enabled_backends acc2 ∧
    kernel_tags_included (acc_called_kernel_tags acc2)
      (called_kernel_tags_result m) ∧
    (∀ b acc_mid w_mid,
       run_model_load host path acc1 (engine_selected FBGEMM w2)
         = inr ((b, acc_mid), w_mid) →
       acc_root_ops acc_mid = get_root_operators b ∧
       acc_enabled_backends acc_mid = acc_enabled_backends acc1 ∧
       acc_called_kernel_tags acc_mid = acc_called_kernel_tags acc1).
Proof.
  intros (acc1 & w2 & acc2 & w4 & Hpass1 & Hpass2 & -> & _)%trace_run_inv.
  exists acc1, w2, acc2, w4. split_and!; try done.
  - destruct (run_model_inv _ _ _ _ _ _ Hpass1) as (b & es & Hfs & Hacc1 & _).
    rewrite (pass_accumulators _ _ _ _ _ _ _ Hfs Hpass2). subst acc1.
    apply classified_twice.
  - unfold collected. simpl. rewrite map_insert_range_map_to_list.
    intros tag dtypes Htag. exists dtypes. split; [| done].
    by apply lookup_union_Some_l.
  - intros b acc_mid w_mid (_ & -> & _)%run_model_load_inv. done.
Qed.

End Accumulation.

(** ** The course of a session *)

Section Course.

Context (host : Host).

(** The stretches a session that returns is made of. *)
Lemma session_stretches path w m w' :
  trace_run host path w = inr (m, w') →
  ∃ acc1 w2 acc2 w4 pass1 pass2,
    run_model host path empty_accumulators (warmed_up host w) = inr (acc1, w2) ∧
    run_model host path acc1 (engine_selected FBGEMM w2) = inr (acc2, w4) ∧
    m = collected host acc2 w4 ∧
    extends host (λ _, True) (warmed_up host w) w2
      (pass_start QNNPACK path :: pass1) ∧
    extends host (λ _, True) (engine_selected FBGEMM w2) w4
      (pass_start FBGEMM path :: pass2) ∧
    quiet w4 w' (collect_entries FBGEMM) ∧
    Forall (λ en, active_engine en = QNNPACK ∧ pass_event (event en)) pass1 ∧
    Forall (λ en, active_engine en = FBGEMM ∧ pass_event (event en)) pass2.
Proof.
  intros (acc1 & w2 & acc2 & w4 & Hpass1 & Hpass2 & -> & Hcollect)%trace_run_inv.
  destruct (run_model_stretch _ _ _ _ _ _ Hpass1) as (pass1 & _ & Hext1 & Hall1).
  destruct (run_model_stretch _ _ _ _ _ _ Hpass2) as (pass2 & _ & Hext2 & Hall2).
  destruct (trace_run_collect_run host acc2 w4) as (w5 & Hrun & Hquiet).
  rewrite Hrun in Hcollect. injection Hcollect as <-.
  assert (qengine (warmed_up host w) = QNNPACK) as Hq1
    by apply (ext_qengine _ _ _ _ _ (warmed_up_extends host w)).
  assert (qengine w4 = FBGEMM) as Hq4
    by apply (ext_qengine _ _ _ _ _ Hext2).
  rewrite Hq1 in Hext1, Hall1. rewrite Hq4 in Hquiet.
  change (qengine (engine_selected FBGEMM w2)) with FBGEMM in Hext2, Hall2.
  exists acc1, w2, acc2, w4, pass1, pass2. by split_and!.
Qed.

Lemma pass_events_hold_no_start (e : QEngine) (entries : list LogEntry) :
  Forall (λ en, active_engine en = e ∧ pass_event (event en)) entries →
  pass_starts entries = [].
Proof.
  unfold pass_starts. induction 1 as [| en entries [_ Hev] _ IH]; [done |].
  rewrite filter_cons_False; [done |].
  destruct (event en) as [| | | | | | [| ? [] |]]; simpl in *; try done; auto.
Qed.

Lemma pass_starts_app es1 es2 :
  pass_starts (es1 ++ es2) = pass_starts es1 ++ pass_starts es2.
Proof. apply filter_app. Qed.

Lemma pass_starts_warm_up : pass_starts warm_up_entries = [].
Proof. by vm_compute. Qed.


(** C8: a session that returns has, in this order, selected engine A
    (QNNPACK), cleared the suppression list, installed the observers and
    warmed up; started a pass over the path with QNNPACK active; selected
    engine B (FBGEMM); started a second pass over the same path with FBGEMM
    active; and only then read the observers.  It starts exactly these two
    passes, and the suppression list is empty from the first pass on. *)
Theorem session_runs_two_passes
    (path : string) (w w' : World) (m : TracerResult) :
  trace_run host path w = inr (m, w') →
  ∃ pass1 pass2,
    new_entries w w'
    = setup_entries (qengine w) ++ warm_up_entries
      ++ [pass_start QNNPACK path] ++ pass1
      ++ [ {| active_engine := QNNPACK; event := E_setQEngine FBGEMM |};
           pass_start FBGEMM path ] ++ pass2
      ++ collect_entries FBGEMM ∧
    Forall (λ en, active_engine en = QNNPACK ∧ pass_event (event en)) pass1 ∧
    Forall (λ en, active_engine en = FBGEMM ∧ pass_event (event en)) pass2 ∧
    pass_starts (new_entries w w')
    = [pass_start QNNPACK path; pass_start FBGEMM path] ∧
    QNNPACK ≠ FBGEMM ∧
    qengine (warmed_up host w) = QNNPACK ∧
    unobserved_operator_list (warmed_up host w) = [] ∧
    unobserved_operator_list w' = [].
Proof.
  intros (acc1 & w2 & acc2 & w4 & pass1 & pass2 & _ & _ & _ &
          Hext1 & Hext2 & Hquiet & Hall1 & Hall2)%session_stretches.
  pose proof (warmed_up_extends host w) as Hext0.
  assert (new_entries w w'
          = setup_entries (qengine w) ++ warm_up_entries
            ++ [pass_start QNNPACK path] ++ pass1
            ++ [ {| active_engine := QNNPACK; event := E_setQEngine FBGEMM |};
                 pass_start FBGEMM path ] ++ pass2
            ++ collect_entries FBGEMM) as Hnew.
  { apply new_entries_app.
    rewrite (quiet_log _ _ _ Hquiet), (ext_log _ _ _ _ _ Hext2).
    change (log (engine_selected FBGEMM w2))
      with (log w2 ++ [{| active_engine := qengine w2;
                          event := E_setQEngine FBGEMM |}]).
    rewrite (ext_qengine _ _ _ _ _ Hext1), (ext_qengine _ _ _ _ _ Hext0).
    rewrite (ext_log _ _ _ _ _ Hext1), (ext_log _ _ _ _ _ Hext0), prepared_log.
    change (qengine (prepared w)) with QNNPACK.
    rewrite <- !app_assoc. reflexivity. }
  exists pass1, pass2. split_and!.
  - exact Hnew.
  - exact Hall1.
  - exact Hall2.
  - rewrite Hnew, !pass_starts_app, pass_starts_warm_up.
    rewrite (pass_events_hold_no_start _ _ Hall1).
    rewrite (pass_events_hold_no_start _ _ Hall2).
    reflexivity.
  - discriminate.
  - apply (ext_qengine _ _ _ _ _ Hext0).
  - apply (ext_unobserved _ _ _ _ _ Hext0).
  - rewrite (quiet_unobserved _ _ _ Hquiet), (ext_unobserved _ _ _ _ _ Hext2).
    change (unobserved_operator_list (engine_selected FBGEMM w2))
      with (unobserved_operator_list w2).
    rewrite (ext_unobserved _ _ _ _ _ Hext1). apply (ext_unobserved _ _ _ _ _ Hext0).
Qed.

End Course.

(** ** What the manifest holds of the recordings *)

Section Recordings.

Context (host : Host).

Lemma extends_called_operators P w w' entries :
  extends host P w w' entries →
  live w OperatorCall = true →
  unobserved_operator_list w = [] →
  called_operators (slots w')
  = called_operators (slots w) ∪ recorded_operators host entries.
Proof.
  intros Hext Hlive Hnone.
  rewrite (ext_slots _ _ _ _ _ Hext), Hnone. by apply replay_called_operators.
Qed.


(** The traced operators of a manifest: what the operator-call store held
    when the session started, what it was told during the warm-up block and
    during each of the two passes, and the baseline. *)
Lemma traced_operators_equation path w m w' :
  trace_run host path w = inr (m, w') →
  ∃ acc1 w2 acc2 w4,
    run_model host path empty_accumulators (warmed_up host w) = inr (acc1, w2) ∧
    run_model host path acc1 (engine_selected FBGEMM w2) = inr (acc2, w4) ∧
    traced_operators m
    = called_operators (slots w)
      ∪ recorded_operators host warm_up_entries
      ∪ recorded_operators host (new_entries (warmed_up host w) w2)
      ∪ recorded_operators host (new_entries (engine_selected FBGEMM w2) w4)
      ∪ list_to_set (always_included_traced_ops host).
Proof.
  intros (acc1 & w2 & acc2 & w4 & pass1 & pass2 & Hpass1 & Hpass2 & -> &
          Hext1 & Hext2 & _)%session_stretches.
  pose proof (warmed_up_extends host w) as Hext0.
  exists acc1, w2, acc2, w4. split_and!; [done | done |].
  rewrite (new_entries_app _ _ _ (ext_log _ _ _ _ _ Hext1)).
  rewrite (new_entries_app _ _ _ (ext_log _ _ _ _ _ Hext2)).
  assert (live (warmed_up host w) OperatorCall = true) as Hlive1.
  { rewrite (ext_live _ _ _ _ _ Hext0). apply prepared_live. }
  assert (unobserved_operator_list (warmed_up host w) = []) as Hnone1
    by apply (ext_unobserved _ _ _ _ _ Hext0).
  assert (live (engine_selected FBGEMM w2) OperatorCall = true) as Hlive2.
  { change (live (engine_selected FBGEMM w2)) with (live w2).
    by rewrite (ext_live _ _ _ _ _ Hext1). }
  assert (unobserved_operator_list (engine_selected FBGEMM w2) = []) as Hnone2.
  { change (unobserved_operator_list (engine_selected FBGEMM w2))
      with (unobserved_operator_list w2).
    by rewrite (ext_unobserved _ _ _ _ _ Hext1). }
  unfold collected, set_insert_range. simpl.
  rewrite (extends_called_operators _ _ _ _ Hext2 Hlive2 Hnone2).
  change (slots (engine_selected FBGEMM w2)) with (slots w2).
  rewrite (extends_called_operators _ _ _ _ Hext1 Hlive1 Hnone1).
  rewrite (extends_called_operators _ _ _ _ Hext0 (prepared_live w _)
             (prepared_unobserved w)).
  by rewrite prepared_slots.
Qed.

(** C2 as the code has it: the traced operators of the manifest are the
    union of what the operator-call observer's store held at the start, what
    it recorded during the warm-up block, what it recorded during each of
    the two passes, and the baseline; the recordings of the two passes alone
    do not account for them.  The merge is a set union: the order in which
    two recordings reach the store does not matter, and merging the same
    recording, or the baseline, once more changes nothing. *)
Theorem traced_operators_are_all_recordings
    (path : string) (w w' : World) (m : TracerResult) :
  trace_run host path w = inr (m, w') →
  (∃ acc1 w2 acc2 w4,
     run_model host path empty_accumulators (warmed_up host w) = inr (acc1, w2) ∧
     run_model host path acc1 (engine_selected FBGEMM w2) = inr (acc2, w4) ∧
     traced_operators m
     = called_operators (slots w)
       ∪ recorded_operators host warm_up_entries
       ∪ recorded_operators host (new_entries (warmed_up host w) w2)
       ∪ recorded_operators host (new_entries (engine_selected FBGEMM w2) w4)
       ∪ list_to_set (always_included_traced_ops host)) ∧
  (∀ live unobserved s r1 r2,
     called_operators
       (merge_recording live unobserved (merge_recording live unobserved s r1) r2)
     = called_operators
         (merge_recording live unobserved (merge_recording live unobserved s r2) r1)) ∧
  (∀ live unobserved s r,
     called_operators
       (merge_recording live unobserved (merge_recording live unobserved s r) r)
     = called_operators (merge_recording live unobserved s r)) ∧
  set_insert_range (traced_operators m) (always_included_traced_ops host)
  = traced_operators m.
Proof.
  intros Hrun. split_and!.
  - by apply (traced_operators_equation path w m w').
  - intros live unobserved s r1 r2. unfold merge_recording. simpl.
    destruct (live OperatorCall); [apply set_insert_range_comm | done].
  - intros live unobserved s r. unfold merge_recording. simpl.
    destruct (live OperatorCall); [apply set_insert_range_idemp | done].
  - apply trace_run_inv in Hrun as (acc1 & w2 & acc2 & w4 & _ & _ & -> & _).
    apply set_insert_range_idemp.
Qed.







End Recordings.

(** ** The sample sessions *)

Import StdString.

(** C4, counterexample to the claim as stated: on the sample GPU bundle
    the operator ["aten::relu"], which the first
    pass has put into the root operators with the reference table, is gone
    from them right after the second pass has assigned the declared root
    operators. *)
Lemma root_operators_are_reassigned :
  ¬ accumulators_never_shrink Sample.host Sample.gpu_path Sample.world.
Proof.
  intros Hclaim.
  assert (accumulators_included Sample.acc1
            (loaded_accumulators Sample.gpu_bundle Sample.acc1)) as [Hroot _ _].
  { apply (Hclaim Sample.acc1 Sample.after_first_pass Sample.gpu_bundle
             (loaded_accumulators Sample.gpu_bundle Sample.acc1)
             (performed Sample.host (A_load Sample.gpu_path true)
                (engine_selected FBGEMM Sample.after_first_pass))).
    - vm_compute. reflexivity.
    - vm_compute. reflexivity. }
  assert ("aten::relu" ∈ acc_root_ops Sample.acc1) as Hin
    by (apply (bool_decide_unpack _); vm_compute; exact I).
  apply Hroot in Hin. simpl in Hin. apply elem_of_singleton in Hin. discriminate.
Qed.

(** C2, counterexample to the claim as stated: on the sample GPU bundle
    the manifest lists ["aten::zeros"], which the
    warm-up block has called; neither pass has called it and the baseline
    does not list it. *)
Lemma warm_up_operators_are_traced :
  ¬ traced_operators_are_pass_recordings
      Sample.host Sample.gpu_path Sample.world.
Proof.
  intros Hclaim.
  assert (traced_operators Sample.gpu_manifest
          = recorded_operators Sample.host
              (new_entries (warmed_up Sample.host Sample.world)
                 Sample.after_first_pass)
            ∪ recorded_operators Sample.host
                (new_entries (engine_selected FBGEMM Sample.after_first_pass)
                   Sample.after_second_pass)
            ∪ list_to_set (always_included_traced_ops Sample.host)) as Heq.
  { apply (Hclaim Sample.acc1 Sample.after_first_pass Sample.acc2
             Sample.after_second_pass Sample.gpu_manifest Sample.gpu_final_world).
    - vm_compute. reflexivity.
    - vm_compute. reflexivity.
    - vm_compute. reflexivity. }
  apply (f_equal (λ s, bool_decide ("aten::zeros" ∈ s))) in Heq.
  vm_compute in Heq. discriminate.
Qed.


(** The sample GPU bundle meets the hypotheses of C1. *)
Lemma gpu_bundle_is_not_executed_witness :
  file_system Sample.host Sample.gpu_path = Some Sample.gpu_bundle ∧
  get_root_operators Sample.gpu_bundle ∩ list_to_set gpu_metal_operators ≠ ∅ ∧
  list_to_set gpu_metal_operators ⊆ root_ops Sample.gpu_manifest ∧
  "Metal GPU" ∈ enabled_backends Sample.gpu_manifest ∧
  called_kernel_tags_result Sample.gpu_manifest !! "__unused__"
    = Some {["Float"]}.
Proof.
  assert (get_root_operators Sample.gpu_bundle
            ∩ list_to_set gpu_metal_operators ≠ ∅) as Hmeet.
  { apply (bool_decide_unpack _). vm_compute. exact I. }
  split; [reflexivity |]. split; [exact Hmeet |].
  apply (proj2 (gpu_bundle_is_not_executed Sample.host Sample.gpu_path
                  Sample.gpu_bundle (λ ops, eq_refl) eq_refl Hmeet)
           Sample.world Sample.gpu_manifest Sample.gpu_final_world).
  vm_compute. reflexivity.
Defined.

Lemma traced_operators_are_all_recordings_witness :
  trace_run Sample.host Sample.gpu_path Sample.world
    = inr (Sample.gpu_manifest, Sample.gpu_final_world) ∧
  set_insert_range (traced_operators Sample.gpu_manifest)
    (always_included_traced_ops Sample.host)
  = traced_operators Sample.gpu_manifest.
Proof.
  match goal with
  | |- ?run ∧ _ => assert run as Hrun by (vm_compute; reflexivity)
  end.
  split; [exact Hrun |].
  apply (traced_operators_are_all_recordings Sample.host Sample.gpu_path
           Sample.world Sample.gpu_final_world Sample.gpu_manifest Hrun).
Defined.

Lemma baseline_in_traced_operators_witness :
  trace_run Sample.host Sample.cpu_path Sample.world
    = inr (Sample.cpu_manifest, Sample.cpu_final_world) ∧
  list_to_set (always_included_traced_ops Sample.host)
    ⊆ traced_operators Sample.cpu_manifest.
Proof.
  match goal with
  | |- ?run ∧ _ => assert run as Hrun by (vm_compute; reflexivity)
  end.
  split; [exact Hrun |].
  apply (baseline_in_traced_operators Sample.host Sample.cpu_path
           Sample.world Sample.cpu_final_world Sample.cpu_manifest Hrun).
Defined.

Lemma accumulators_grow_across_passes_witness :
  trace_run Sample.host Sample.gpu_path Sample.world
    = inr (Sample.gpu_manifest, Sample.gpu_final_world) ∧
  ∃ acc1 w2 acc2 w4,
    run_model Sample.host Sample.gpu_path empty_accumulators
      (warmed_up Sample.host Sample.world) = inr (acc1, w2) ∧
    run_model Sample.host Sample.gpu_path acc1 (engine_selected FBGEMM w2)
      = inr (acc2, w4) ∧
    accumulators_included acc1 acc2 ∧
    root_ops Sample.gpu_manifest = acc_root_ops acc2 ∧
    enabled_backends Sample.gpu_manifest = acc_enabled_backends acc2 ∧
    kernel_tags_included (acc_called_kernel_tags acc2)
      (called_kernel_tags_result Sample.gpu_manifest) ∧
    (∀ b acc_mid w_mid,
       run_model_load Sample.host Sample.gpu_path acc1
         (engine_selected FBGEMM w2) = inr ((b, acc_mid), w_mid) →
       acc_root_ops acc_mid = get_root_operators b ∧
       acc_enabled_backends acc_mid = acc_enabled_backends acc1 ∧
       acc_called_kernel_tags acc_mid = acc_called_kernel_tags acc1).
Proof.
  match goal with
  | |- ?run ∧ _ => assert run as Hrun by (vm_compute; reflexivity)
  end.
  split; [exact Hrun |].
  apply (accumulators_grow_across_passes Sample.host Sample.gpu_path
           Sample.world Sample.gpu_final_world Sample.gpu_manifest Hrun).
Defined.

Lemma recovery_records_simple_names_witness :
  registry_of Sample.world !! "prepacked::linear_clamp_prepack"
    = Some Sample.linear_clamp_prepack ∧
  ∃ loaded',
    recordCustomClassesFromOpSchemas
      {["prepacked::linear_clamp_prepack"]} ∅ ∅ Sample.world
      = inr (loaded', Sample.world) ∧
    (∀ annotation,
       annotation ∈ schema_annotations Sample.linear_clamp_prepack →
       contains_substring custom_type_marker annotation →
       size annotation < npos →
       simple_name annotation ∈ loaded') ∧
    ((∀ annotation,
        annotation ∈ schema_annotations Sample.linear_clamp_prepack →
        ¬ contains_substring custom_type_marker annotation) →
     recordCustomClassesFromOpSchemas
       ({["prepacked::linear_clamp_prepack"]} ∖ {["prepacked::linear_clamp_prepack"]})
       (∅ ∖ {["prepacked::linear_clamp_prepack"]}) ∅ Sample.world
       = inr (loaded', Sample.world)).
Proof.
  split; [vm_compute; reflexivity |].
  apply (recovery_records_simple_names Sample.world
           {["prepacked::linear_clamp_prepack"]} ∅ ∅
           "prepacked::linear_clamp_prepack" Sample.linear_clamp_prepack).
  - apply elem_of_union_l, elem_of_singleton. reflexivity.
  - vm_compute. reflexivity.
Defined.

Lemma session_runs_two_passes_witness :
  trace_run Sample.host Sample.cpu_path Sample.world
    = inr (Sample.cpu_manifest, Sample.cpu_final_world) ∧
  ∃ pass1 pass2,
    new_entries Sample.world Sample.cpu_final_world
    = setup_entries (qengine Sample.world) ++ warm_up_entries
      ++ [pass_start QNNPACK Sample.cpu_path] ++ pass1
      ++ [ {| active_engine := QNNPACK; event := E_setQEngine FBGEMM |};
           pass_start FBGEMM Sample.cpu_path ] ++ pass2
      ++ collect_entries FBGEMM ∧
    Forall (λ en, active_engine en = QNNPACK ∧ pass_event (event en)) pass1 ∧
    Forall (λ en, active_engine en = FBGEMM ∧ pass_event (event en)) pass2 ∧
    pass_starts (new_entries Sample.world Sample.cpu_final_world)
    = [pass_start QNNPACK Sample.cpu_path; pass_start FBGEMM Sample.cpu_path] ∧
    QNNPACK ≠ FBGEMM ∧
    qengine (warmed_up Sample.host Sample.world) = QNNPACK ∧
    unobserved_operator_list (warmed_up Sample.host Sample.world) = [] ∧
    unobserved_operator_list Sample.cpu_final_world = [].
Proof.
  match goal with
  | |- ?run ∧ _ => assert run as Hrun by (vm_compute; reflexivity)
  end.
  split; [exact Hrun |].
  apply (session_runs_two_passes Sample.host Sample.cpu_path
           Sample.world Sample.cpu_final_world Sample.cpu_manifest Hrun).
Defined.


Lemma recovery_without_separator_records_whole_annotation_witness :
  contains_substring custom_type_marker "__torch__Handle" ∧
  ¬ contains_char path_separator "__torch__Handle" ∧
  size "__torch__Handle" < npos ∧
  size_t_add (find_last_of "__torch__Handle" path_separator) 1 = 0 ∧
  (∀ loaded w,
     record_if_class "__torch__Handle" loaded w
     = inr ({["__torch__Handle"]} ∪ loaded, w)) ∧
  (∀ w root_ops traced_ops loaded op schema,
     op ∈ root_ops ∪ traced_ops →
     registry_of w !! op = Some schema →
     "__torch__Handle" ∈ schema_annotations schema →
     ∃ loaded',
       recordCustomClassesFromOpSchemas root_ops traced_ops loaded w
         = inr (loaded', w) ∧
       "__torch__Handle" ∈ loaded').
Proof.
  assert (contains_substring custom_type_marker "__torch__Handle") as Hc
    by (exists EmptyString, "Handle"; reflexivity).
  assert (¬ contains_char path_separator "__torch__Handle") as Hsep.
  { unfold contains_char. simpl. intuition discriminate. }
  assert (size "__torch__Handle" < npos) as Hsize by reflexivity.
  split; [exact Hc |]. split; [exact Hsep |]. split; [exact Hsize |].
  exact (recovery_without_separator_records_whole_annotation
           "__torch__Handle" Hc Hsep Hsize).
Defined.

(* ===================================================================== *)
(** * Further properties of the driver                                   *)
(* ===================================================================== *)

(** ** The operator registry *)

Section Registry.

Lemma foldl_emplace_jit (jit : list FunctionSchema) (m : gmap string FunctionSchema) :
  foldl (λ result op,
           emplace (qualified_name (name op) (overload_name op)) op result)
        m jit
  = map_insert_range m (jit_entries jit).
Proof.
  unfold map_insert_range, jit_entries. revert m.
  induction jit as [| op jit IH]; intros m; [done |]. simpl. apply IH.
Qed.

Lemma foldl_emplace_dispatcher (table : list OperatorHandle)
    (names : list OperatorName) (m : gmap string FunctionSchema) :
  foldl (λ result op,
           match findOp table op with
           | Some op_handle =>
               match handle_schema op_handle with
               | Some schema =>
                   emplace (qualified_name (op_name op) (op_overload_name op))
                           schema result
               | None => result
               end
           | None => result
           end)
        m names
  = map_insert_range m (omap (dispatcher_entry table) names).
Proof.
  unfold map_insert_range. revert m.
  induction names as [| op names IH]; intros m; [done |].
  simpl. rewrite IH. unfold dispatcher_entry at 2.
  destruct (findOp table op) as [h |]; simpl; [| done].
  destruct (handle_schema h); done.
Qed.

(** The registry is the union of the JIT entries and the dispatcher
    entries, the JIT entries and, within each list, the earlier entries
    taking precedence. *)
Lemma registry_of_entries w :
  registry_of w
  = list_to_map (jit_entries (jit_operators w))
    ∪ list_to_map (dispatcher_entries (dispatcher_operators w)).
Proof.
  unfold registry_of, _get_runtime_ops_and_schema, mbind, M_bind, get_world,
    mret, M_ret.
  rewrite foldl_emplace_jit, foldl_emplace_dispatcher.
  rewrite !map_insert_range_union. by rewrite (left_id_L ∅ (∪)).
Qed.

Lemma dispatcher_entry_Some table op k schema :
  dispatcher_entry table op = Some (k, schema) →
  ∃ h, h ∈ table ∧ operator_name h = op ∧ handle_schema h = Some schema ∧
       k = qualified_name (op_name op) (op_overload_name op).
Proof.
  unfold dispatcher_entry, findOp. intros Hentry.
  destruct (list_find (λ h, operator_name h = op) table) as [[i h] |] eqn:Hfind;
    simpl in Hentry; [| done].
  apply list_find_Some in Hfind as (Hi & Hname & _).
  destruct (handle_schema h) as [s |] eqn:Hs; simpl in Hentry; [| done].
  injection Hentry as <- <-. exists h. split_and!; try done.
  by eapply list_elem_of_lookup_2.
Qed.

(** X1: every entry of the map [_get_runtime_ops_and_schema] returns is
    keyed by the qualified name of a JIT operator and holds that operator's
    schema, or is keyed by the qualified name of a dispatcher operator and
    holds the schema of a handle registered under that operator's name. *)
Theorem registry_entries_come_from_the_tables
    (w : World) (k : string) (schema : FunctionSchema) :
  registry_of w !! k = Some schema →
  (schema ∈ jit_operators w ∧
   k = qualified_name (name schema) (overload_name schema)) ∨
  (∃ h, h ∈ dispatcher_operators w ∧
        handle_schema h = Some schema ∧
        k = qualified_name (op_name (operator_name h))
                           (op_overload_name (operator_name h))).
Proof.
  rewrite registry_of_entries. intros [Hjit | [_ Hdisp]]%lookup_union_Some_raw.
  - left. apply elem_of_list_to_map_2 in Hjit. unfold jit_entries in Hjit.
    apply list_elem_of_fmap in Hjit as (op & [= -> ->] & Hop). done.
  - right. apply elem_of_list_to_map_2 in Hdisp. unfold dispatcher_entries in Hdisp.
    apply list_elem_of_omap in Hdisp as (op & _ & Hentry).
    apply dispatcher_entry_Some in Hentry as (h & Hh & <- & Hs & ->). eauto.
Qed.

Lemma list_to_map_first {V} (pre post : list (string * V)) k v :
  k ∉ pre.*1 →
  (list_to_map (pre ++ (k, v) :: post) : gmap string V) !! k = Some v.
Proof.
  induction pre as [| [k' v'] pre IH]; intros Hpre; simpl.
  - apply lookup_insert_eq.
  - simpl in Hpre. apply not_elem_of_cons in Hpre as [Hne Hpre].
    rewrite lookup_insert_ne by done. by apply IH.
Qed.

(** X2: the first JIT operator registered under a qualified name owns that
    key: the map holds its schema whatever later JIT operators or the
    dispatcher register under the same name. *)
Theorem first_jit_operator_wins
    (w : World) (earlier later : list FunctionSchema) (op : FunctionSchema) :
  jit_operators w = earlier ++ op :: later →
  (∀ op', op' ∈ earlier →
     qualified_name (name op') (overload_name op')
     ≠ qualified_name (name op) (overload_name op)) →
  registry_of w !! qualified_name (name op) (overload_name op) = Some op.
Proof.
  intros Hjit Hfirst. rewrite registry_of_entries, Hjit.
  apply lookup_union_Some_l. unfold jit_entries. rewrite fmap_app, fmap_cons.
  apply list_to_map_first. rewrite <- list_fmap_compose.
  intros (op' & Hk & Hop')%list_elem_of_fmap. by eapply Hfirst.
Qed.

Lemma findOp_unique table h :
  NoDup (operator_name <$> table) →
  h ∈ table →
  findOp table (operator_name h) = Some h.
Proof.
  intros Hnodup Hh. unfold findOp.
  apply list_elem_of_lookup in Hh as [i Hi].
  destruct (list_find (λ h', operator_name h' = operator_name h) table)
    as [[j h'] |] eqn:Hfind.
  - apply list_find_Some in Hfind as (Hj & Hname & _). simpl.
    assert (i = j) as <-.
    { eapply (NoDup_lookup _ _ _ _ Hnodup); rewrite list_lookup_fmap.
      - by rewrite Hi.
      - rewrite Hj. simpl. by rewrite Hname. }
    congruence.
  - apply list_find_None in Hfind. rewrite Forall_forall in Hfind.
    exfalso. eapply Hfind; [by eapply list_elem_of_lookup_2 | done].
Qed.

(** X3: with the dispatcher's operator names unique, the keys of the map
    are exactly the qualified names of the JIT operators and of the
    dispatcher operators that have a schema; an operator without schema
    contributes no key. *)
Theorem registry_keys
    (w : World) (k : string) :
  NoDup (operator_name <$> dispatcher_operators w) →
  is_Some (registry_of w !! k) ↔
  (∃ op, op ∈ jit_operators w ∧
         k = qualified_name (name op) (overload_name op)) ∨
  (∃ h schema, h ∈ dispatcher_operators w ∧
        handle_schema h = Some schema ∧
        k = qualified_name (op_name (operator_name h))
                           (op_overload_name (operator_name h))).
Proof.
  intros Hnodup. split.
  - rewrite registry_of_entries.
    intros [schema [Hjit | [_ Hdisp]]%lookup_union_Some_raw].
    + left. apply elem_of_list_to_map_2 in Hjit. unfold jit_entries in Hjit.
      apply list_elem_of_fmap in Hjit as (op & [= -> ->] & Hop). eauto.
    + right. apply elem_of_list_to_map_2 in Hdisp.
      unfold dispatcher_entries in Hdisp.
      apply list_elem_of_omap in Hdisp as (op & _ & Hentry).
      apply dispatcher_entry_Some in Hentry as (h & Hh & <- & Hs & ->). eauto.
  - rewrite registry_of_entries, <- elem_of_dom, dom_union_L, elem_of_union.
    rewrite !dom_list_to_map_L, !elem_of_list_to_set.
    intros [(op & Hop & ->) | (h & schema & Hh & Hs & ->)]; [left | right].
    + unfold jit_entries. rewrite <- list_fmap_compose.
      apply list_elem_of_fmap. by exists op.
    + apply list_elem_of_fmap.
      exists (qualified_name (op_name (operator_name h))
                (op_overload_name (operator_name h)), schema).
      split; [done |]. unfold dispatcher_entries.
      apply list_elem_of_omap. exists (operator_name h). split.
      * by apply list_elem_of_fmap_2.
      * unfold dispatcher_entry. rewrite (findOp_unique _ _ Hnodup Hh). simpl.
        by rewrite Hs.
Qed.

End Registry.

(** ** Operator identities and recorded class names *)

Section Names.

Lemma app_cons_string a (s t : string) : String a s +:+ t = String a (s +:+ t).
Proof. reflexivity. Qed.

Lemma app_self_inv (n x : string) : n = n +:+ x → x = EmptyString.
Proof.
  induction n as [| a n IH]; [done |].
  rewrite app_cons_string. intros [= H]. auto.
Qed.

(** X4: for one base name the qualified name determines the overload name,
    so operators that differ in their overload only never share a key; two
    operators with different base names can share one. *)
Theorem qualified_name_separates_overloads :
  (∀ n o1 o2, qualified_name n o1 = qualified_name n o2 → o1 = o2) ∧
  (∃ n1 o1 n2 o2,
     (n1, o1) ≠ (n2, o2) ∧ qualified_name n1 o1 = qualified_name n2 o2).
Proof.
  split.
  - intros n o1 o2. unfold qualified_name.
    destruct (decide (o1 = "")) as [-> | H1], (decide (o2 = "")) as [-> | H2].
    + done.
    + intros H%app_self_inv. discriminate.
    + intros H. symmetry in H. apply app_self_inv in H. discriminate.
    + intros H%(inj (String.app n)). by injection H.
  - exists "a.b", "", "a", "b". split; [discriminate | reflexivity].
Qed.

Lemma last_occurrence_split c s i :
  last_occurrence c s = Some i →
  ¬ contains_char c (drop_chars (S i) s) ∧
  ∃ pre, s = pre +:+ String c (drop_chars (S i) s).
Proof.
  revert i. induction s as [| a s IH]; intros i; simpl; [done |].
  destruct (last_occurrence c s) as [j |] eqn:Hj.
  - intros [= <-]. destruct (IH j eq_refl) as [Hno [pre Hpre]].
    split; [done |]. exists (String a pre). rewrite app_cons_string.
    by rewrite <- Hpre.
  - destruct (Ascii.eqb_spec a c) as [-> | Hne]; [| done].
    intros [= <-]. split; [by apply last_occurrence_None |].
    by exists EmptyString.
Qed.

(** X5: for an annotation with the marker, what [record_if_class] inserts
    contains no ['.']; it is the annotation itself when that has no ['.'],
    and otherwise the annotation is some prefix, a ['.'] and the inserted
    name. *)
Theorem recorded_class_name_shape (annotation : string) :
  contains_substring custom_type_marker annotation →
  size annotation < npos →
  ∃ class_name,
    (∀ loaded w,
       record_if_class annotation loaded w
       = inr ({[class_name]} ∪ loaded, w)) ∧
    ¬ contains_char path_separator class_name ∧
    (class_name = annotation ∨
     ∃ pre, annotation = pre +:+ String path_separator class_name).
Proof.
  intros Hc Hsize.
  exists (drop_chars
            (Z.to_nat (size_t_add (find_last_of annotation path_separator) 1))
            annotation).
  split.
  - intros loaded w. rewrite record_if_class_run. unfold class_of.
    by rewrite decide_True by (by apply find_npos).
  - unfold find_last_of, to_size_t, size_t_add.
    destruct (last_occurrence path_separator annotation) as [i |] eqn:Hi.
    + pose proof (last_occurrence_bound _ _ _ Hi) as Hbound.
      unfold size in Hsize. rewrite npos_value in Hsize.
      rewrite Z.mod_small by (unfold size_t_modulus; lia).
      replace (Z.to_nat (Z.of_nat i + 1)) with (S i) by lia.
      destruct (last_occurrence_split _ _ _ Hi) as [Hno Hpre]. eauto.
    + change ((npos + 1) mod size_t_modulus) with 0. simpl.
      split; [by apply last_occurrence_None | by left].
Qed.

Lemma last_occurrence_trailing c (pre : string) :
  last_occurrence c (pre +:+ String c EmptyString) = Some (String.length pre).
Proof.
  induction pre as [| a pre IH].
  - simpl. by rewrite Ascii.eqb_refl.
  - rewrite app_cons_string. simpl. by rewrite IH.
Qed.

Lemma drop_chars_trailing c (pre : string) :
  drop_chars (S (String.length pre)) (pre +:+ String c EmptyString) = EmptyString.
Proof.
  induction pre as [| a pre IH]; [done |].
  rewrite app_cons_string. exact IH.
Qed.

(** X6: an annotation with the marker that ends in ['.'] makes
    [record_if_class] insert the empty string. *)
Theorem trailing_separator_records_empty_name (pre : string) :
  contains_substring custom_type_marker
    (pre +:+ String path_separator EmptyString) →
  size (pre +:+ String path_separator EmptyString) < npos →
  ∀ loaded w,
    record_if_class (pre +:+ String path_separator EmptyString) loaded w
    = inr ({[EmptyString]} ∪ loaded, w).
Proof.
  intros Hc Hsize loaded w. rewrite record_if_class_run. unfold class_of.
  rewrite decide_True by (by apply find_npos).
  unfold find_last_of, to_size_t, size_t_add.
  rewrite last_occurrence_trailing.
  pose proof (last_occurrence_bound _ _ _ (last_occurrence_trailing path_separator pre))
    as Hbound.
  unfold size in Hsize. rewrite npos_value in Hsize.
  rewrite Z.mod_small by (unfold size_t_modulus; lia).
  replace (Z.to_nat (Z.of_nat (String.length pre) + 1))
    with (S (String.length pre)) by lia.
  by rewrite drop_chars_trailing.
Qed.

(** X7: the recovery only adds to the set it is given; its two input sets
    play the same role, so exchanging them changes nothing; and a larger
    input recovers at least as much. *)
Theorem recovery_only_adds
    (w : World) (root_ops traced_ops loaded : gset string) :
  ∃ loaded',
    recordCustomClassesFromOpSchemas root_ops traced_ops loaded w
      = inr (loaded', w) ∧
    loaded ⊆ loaded' ∧
    recordCustomClassesFromOpSchemas traced_ops root_ops loaded w
      = inr (loaded', w) ∧
    (∀ root_ops2 traced_ops2 loaded2,
       root_ops ∪ traced_ops ⊆ root_ops2 ∪ traced_ops2 →
       loaded ⊆ loaded2 →
       ∃ loaded2',
         recordCustomClassesFromOpSchemas root_ops2 traced_ops2 loaded2 w
           = inr (loaded2', w) ∧
         loaded' ⊆ loaded2').
Proof.
  eexists. split; [apply recordCustomClassesFromOpSchemas_run |]. split_and!.
  - apply union_subseteq_r.
  - rewrite recordCustomClassesFromOpSchemas_run.
    by rewrite (comm_L (∪) traced_ops root_ops).
  - intros root_ops2 traced_ops2 loaded2 Hops Hloaded.
    eexists. split; [apply recordCustomClassesFromOpSchemas_run |].
    intros x [Hx | Hx]%elem_of_union; [| apply elem_of_union_r; auto].
    apply elem_of_union_l. apply elem_of_recovered.
    apply elem_of_recovered in Hx as (op & schema & ann & Hop & ?).
    exists op, schema, ann. split; [auto | done].
Qed.

End Names.

(** ** Passes over CPU bundles *)

Section CpuPass.

Context (host : Host).

Lemma bind_inl {A B} (m : M A) (f : A → M B) (w : World) (e : Exception) :
  m w = inl e → (m ≫= f) w = inl e.
Proof. unfold mbind, M_bind. by intros ->. Qed.

Lemma yields_bind {A B} (m : M A) (f : A → M B) w a w1 b w2 es1 es2 :
  yields host m w a w1 es1 →
  yields host (f a) w1 b w2 es2 →
  yields host (m ≫= f) w b w2 (es1 ++ es2).
Proof.
  intros [H1 E1] [H2 E2]. split.
  - by rewrite (bind_run _ _ _ _ _ H1).
  - by eapply extends_trans.
Qed.

Lemma yields_qengine {A} (m : M A) w a w' es :
  yields host m w a w' es → qengine w' = qengine w.
Proof. intros [_ E]. apply (ext_qengine _ _ _ _ _ E). Qed.

Lemma yields_ret {A} (a : A) w : yields host (mret a) w a w [].
Proof. split; [done | apply extends_refl]. Qed.

Lemma yields_perform e a w :
  qengine w = e →
  yields host (perform host a) w tt (performed host a w)
    [{| active_engine := e; event := E_action a |}].
Proof. intros <-. split; [done | by apply performed_extends]. Qed.

Lemma yields_visit e origin t w :
  qengine w = e →
  ∃ w', yields host (emit (E_visit origin t)) w tt w'
          [{| active_engine := e; event := E_visit origin t |}].
Proof.
  intros <-.
  destruct (emit_visit_extends host (λ _, True) origin t w I) as (w' & ? & ?).
  by exists w'.
Qed.

Lemma yields_consume_tensor e t w :
  qengine w = e →
  ∃ w', yields host (consume_tensor host t) w tt w'
          [ {| active_engine := e; event := E_action (A_call (cpu t)) |};
            {| active_engine := e;
               event := E_action (A_call (copy_ (tensor_dtype t) (tensor_dtype t))) |} ].
Proof.
  intros He.
  exists (performed host (A_call (copy_ (tensor_dtype t) (tensor_dtype t)))
            (performed host (A_call (cpu t)) w)).
  unfold consume_tensor.
  apply (yields_bind _ _ w tt (performed host (A_call (cpu t)) w) tt _ [_] [_]).
  - by apply yields_perform.
  - by apply yields_perform.
Qed.

(** The hook applied to a list of tensors. *)
Lemma yields_visits origin e (tensors : list Tensor) w :
  qengine w = e →
  ∃ w', yields host
          (for_each tensors (λ t, emit (E_visit origin t) ;; consume_tensor host t))
          w tt w' (visit_entries origin e tensors).
Proof.
  revert w. induction tensors as [| t tensors IH]; intros w He.
  - exists w. apply yields_ret.
  - destruct (yields_visit e origin t w He) as (w1 & Hvisit).
    destruct (yields_consume_tensor e t w1) as (w2 & Hconsume).
    { by rewrite (yields_qengine _ _ _ _ _ Hvisit). }
    destruct (IH w2) as (w' & Hrest).
    { by rewrite (yields_qengine _ _ _ _ _ Hconsume),
        (yields_qengine _ _ _ _ _ Hvisit). }
    exists w'.
    apply (yields_bind _ _ _ _ _ _ _ (_ :: _ :: [_]) _
             (yields_bind _ _ _ _ _ _ _ [_] _ Hvisit Hconsume) Hrest).
Qed.

(** The hook applied to the tensors of result values. *)
Lemma yields_results e (results : list IValue) w :
  qengine w = e →
  ∃ w', yields host
          (for_each results (λ result,
             for_each_tensor_in_ivalue InferenceResult result (consume_tensor host)))
          w tt w' (result_entries e results).
Proof.
  revert w. induction results as [| result results IH]; intros w He.
  - exists w. apply yields_ret.
  - destruct (yields_visits InferenceResult e (ivalue_tensors result) w He)
      as (w1 & Hhere).
    destruct (IH w1) as (w' & Hrest).
    { by rewrite (yields_qengine _ _ _ _ _ Hhere). }
    exists w'. apply (yields_bind _ _ _ _ _ _ _ _ _ Hhere Hrest).
Qed.

Lemma yields_MobileModelRunner e path permissive b w :
  qengine w = e →
  file_system host path = Some b →
  permissive || loads_in_standard_mode b = true →
  yields host (MobileModelRunner host path permissive) w b
    (performed host (A_load path permissive) w)
    [{| active_engine := e; event := E_action (A_load path permissive) |}].
Proof.
  intros He Hfs Hok. unfold MobileModelRunner. rewrite Hfs, Hok.
  apply (yields_bind _ _ w tt (performed host (A_load path permissive) w) b _
           [_] []);
    [by apply yields_perform | apply yields_ret].
Qed.

Lemma yields_run_with_inputs e b method inputs results w :
  qengine w = e →
  forward host e b method inputs = Some results →
  yields host (run_with_inputs host b method inputs) w results
    (performed host (A_run method inputs) w) [run_entry e method inputs].
Proof.
  intros He Hfwd.
  assert (run_with_inputs host b method inputs w
          = (perform host (A_run method inputs) ;; mret results) w) as Hrun.
  { unfold run_with_inputs. unfold mbind at 1, M_bind at 1, get_world.
    by rewrite He, Hfwd. }
  destruct (yields_bind (perform host (A_run method inputs)) (λ _, mret results)
              w tt _ results _ [_] []
              (yields_perform e _ w He) (yields_ret results _)) as [Hr Hext].
  split; [by rewrite Hrun | exact Hext].
Qed.

(** The execution part of a pass over a legacy bundle. *)
Lemma yields_legacy e b inputs results w :
  qengine w = e →
  get_all_bundled_inputs b = Some inputs →
  forward host e b None inputs = Some results →
  ∃ w', yields host
          (bundled_inputs ← get_all_bundled_inputs_or_throw b;
           results ← run_with_inputs host b None bundled_inputs;
           for_each results (λ result,
             for_each_tensor_in_ivalue InferenceResult result (consume_tensor host)))
          w tt w' (run_entry e None inputs :: result_entries e results).
Proof.
  intros He Hinputs Hfwd.
  pose proof (yields_run_with_inputs e b None inputs results w He Hfwd) as Hrun.
  destruct (yields_results e results (performed host (A_run None inputs) w))
    as (w' & Hres); [done |].
  exists w'.
  apply (yields_bind _ _ _ inputs w _ _ [] _).
  - unfold get_all_bundled_inputs_or_throw. rewrite Hinputs. apply yields_ret.
  - apply (yields_bind _ _ _ _ _ _ _ [_] _ Hrun Hres).
Qed.

(** The execution part of a pass over a new-style bundle. *)
Lemma yields_functions e b (mapping : list (string * list (list IValue))) w :
  qengine w = e →
  (∀ entry, entry ∈ mapping →
     is_Some (forward host e b (Some entry.1) entry.2)) →
  ∃ w', yields host
          (for_each mapping (λ entry,
             let function_name := entry.1 in
             let bundled_inputs := entry.2 in
             results ← run_with_inputs host b (Some function_name) bundled_inputs;
             for_each results (λ result,
               for_each_tensor_in_ivalue InferenceResult result
                 (consume_tensor host))))
          w tt w' (flat_map (function_entries host e b) mapping).
Proof.
  revert w. induction mapping as [| entry mapping IH]; intros w He Hall.
  - exists w. apply yields_ret.
  - destruct (Hall entry) as [results Hfwd]; [apply list_elem_of_here |].
    pose proof (yields_run_with_inputs e b (Some entry.1) entry.2 results w He Hfwd)
      as Hrun.
    destruct (yields_results e results
                (performed host (A_run (Some entry.1) entry.2) w))
      as (w1 & Hres); [done |].
    pose proof (yields_bind
                  (run_with_inputs host b (Some entry.1) entry.2)
                  (λ results,
                     for_each results (λ result,
                       for_each_tensor_in_ivalue InferenceResult result
                         (consume_tensor host)))
                  _ _ _ _ _ [_] _ Hrun Hres) as Hentry.
    destruct (IH w1) as (w' & Hrest).
    { by rewrite (yields_qengine _ _ _ _ _ Hentry). }
    { intros entry' Hin. apply Hall. by apply list_elem_of_further. }
    exists w'. simpl. unfold function_entries at 1. rewrite Hfwd.
    apply (yields_bind _ _ _ _ _ _ _ (_ :: _) _ Hentry Hrest).
Qed.

Lemma yields_run_model_load e path b acc w :
  qengine w = e →
  file_system host path = Some b →
  yields host (run_model_load host path acc) w (b, loaded_accumulators b acc)
    (performed host (A_load path true) w) [pass_start e path].
Proof.
  intros He Hfs. unfold run_model_load.
  apply (yields_bind _ _ w b (performed host (A_load path true) w) _ _ [_] []).
  - by apply yields_MobileModelRunner.
  - apply yields_ret.
Qed.

(** A pass over a CPU bundle that loads in standard mode, given what its
    execution part does. *)
Lemma yields_cpu_pass e path b acc w execution :
  qengine w = e →
  file_system host path = Some b →
  set_has_metal_gpu_operators host (get_root_operators b) = false →
  loads_in_standard_mode b = true →
  (∀ w3, qengine w3 = e →
     ∃ w',
       yields host
         (if has_new_style_bundled_inputs b then
            for_each (get_many_functions_bundled_inputs b) (λ entry,
              let function_name := entry.1 in
              let bundled_inputs := entry.2 in
              results ← run_with_inputs host b (Some function_name) bundled_inputs;
              for_each results (λ result,
                for_each_tensor_in_ivalue InferenceResult result
                  (consume_tensor host)))
          else
            bundled_inputs ← get_all_bundled_inputs_or_throw b;
            results ← run_with_inputs host b None bundled_inputs;
            for_each results (λ result,
              for_each_tensor_in_ivalue InferenceResult result
                (consume_tensor host)))
         w3 tt w' execution) →
  ∃ w',
    yields host (run_model host path acc) w (cpu_accumulators b acc) w'
      (pass_start e path :: standard_load e path
       :: visit_entries BundledInput e (bundled_input_tensors b) ++ execution).
Proof.
  intros He Hfs Hcpu Hloads Hexec.
  pose proof (yields_run_model_load e path b acc w He Hfs) as Hload.
  set (w1 := performed host (A_load path true) w) in *.
  assert (qengine w1 = e) as He1 by done.
  pose proof (yields_MobileModelRunner e path false b w1 He1 Hfs Hloads) as Hstd.
  set (w2 := performed host (A_load path false) w1) in *.
  assert (qengine w2 = e) as He2 by done.
  destruct (yields_visits BundledInput e (bundled_input_tensors b) w2 He2)
    as (w3 & Hwalk).
  destruct (Hexec w3) as (w4 & Hrun).
  { by rewrite (yields_qengine _ _ _ _ _ Hwalk). }
  exists w4. unfold run_model.
  apply (yields_bind _ _ w _ w1 _ w4 [_] (_ :: _ ++ _) Hload).
  unfold run_model_classify. simpl. rewrite Hcpu.
  apply (yields_bind _ _ w1 b w2 _ w4 [_] (_ ++ _) Hstd).
  unfold for_each_tensor_in_bundled_inputs.
  apply (yields_bind _ _ w2 tt w3 _ w4 _ _ Hwalk).
  rewrite <- (app_nil_r execution).
  apply (yields_bind _ _ w3 tt w4 _ w4 _ [] Hrun). apply yields_ret.
Qed.

(** X8: when the path holds no loadable bundle, a pass throws the load
    failure and so does the session: no manifest is returned. *)
Theorem missing_bundle_is_fatal (path : string) :
  file_system host path = None →
  (∀ acc w, run_model host path acc w = inl (load_failure path)) ∧
  (∀ w, trace_run host path w = inl (load_failure path)).
Proof.
  intros Hfs.
  assert (∀ acc w, run_model host path acc w = inl (load_failure path)) as Hpass.
  { intros acc w. unfold run_model. apply bind_inl.
    unfold run_model_load. apply bind_inl.
    unfold MobileModelRunner. by rewrite Hfs. }
  split; [exact Hpass |].
  intros w. unfold trace_run.
  rewrite (bind_run _ _ _ _ _ (trace_run_setup_run host w)).
  apply bind_inl, Hpass.
Qed.

(** X9: a CPU bundle that loads permissively but not in standard mode
    makes the pass, and the session, throw the load failure. *)
Theorem standard_load_failure_is_fatal (path : string) (b : Bundle) :
  file_system host path = Some b →
  set_has_metal_gpu_operators host (get_root_operators b) = false →
  loads_in_standard_mode b = false →
  (∀ acc w, run_model host path acc w = inl (load_failure path)) ∧
  (∀ w, trace_run host path w = inl (load_failure path)).
Proof.
  intros Hfs Hcpu Hloads.
  assert (∀ acc w, run_model host path acc w = inl (load_failure path)) as Hpass.
  { intros acc w. unfold run_model.
    rewrite (bind_run _ _ _ _ _ (run_model_load_run host path acc w b Hfs)).
    unfold run_model_classify. simpl. rewrite Hcpu. apply bind_inl.
    unfold MobileModelRunner. by rewrite Hfs, Hloads. }
  split; [exact Hpass |].
  intros w. unfold trace_run.
  rewrite (bind_run _ _ _ _ _ (trace_run_setup_run host w)).
  apply bind_inl, Hpass.
Qed.

(** The steps of a CPU pass up to its execution part. *)
Lemma cpu_pass_prefix path b acc w :
  file_system host path = Some b →
  set_has_metal_gpu_operators host (get_root_operators b) = false →
  loads_in_standard_mode b = true →
  ∃ w3,
    qengine w3 = qengine w ∧
    ∀ k : Bundle → M unit,
      (mobile_module_runner ← MobileModelRunner host path false;
       for_each_tensor_in_bundled_inputs b (consume_tensor host) ;;
       k mobile_module_runner ;; mret (cpu_accumulators b acc))
        (performed host (A_load path true) w)
      = (k b ;; mret (cpu_accumulators b acc)) w3.
Proof.
  intros Hfs Hcpu Hloads.
  set (w1 := performed host (A_load path true) w).
  destruct (yields_MobileModelRunner (qengine w) path false b w1 eq_refl Hfs Hloads)
    as [Hstd _].
  destruct (yields_visits BundledInput (qengine w) (bundled_input_tensors b)
              (performed host (A_load path false) w1) eq_refl)
    as (w3 & Hwalk).
  exists w3. split.
  - by rewrite (yields_qengine _ _ _ _ _ Hwalk).
  - intros k. rewrite (bind_run _ _ _ _ _ Hstd).
    unfold for_each_tensor_in_bundled_inputs.
    destruct Hwalk as [Hwalk _]. by rewrite (bind_run _ _ _ _ _ Hwalk).
Qed.

Lemma legacy_without_inputs_throws path b acc w :
  file_system host path = Some b →
  set_has_metal_gpu_operators host (get_root_operators b) = false →
  loads_in_standard_mode b = true →
  has_new_style_bundled_inputs b = false →
  get_all_bundled_inputs b = None →
  run_model host path acc w = inl no_bundled_inputs.
Proof.
  intros Hfs Hcpu Hloads Hstyle Hnone. unfold run_model.
  rewrite (bind_run _ _ _ _ _ (run_model_load_run host path acc w b Hfs)).
  unfold run_model_classify. cbn [acc_root_ops loaded_accumulators].
  rewrite Hcpu.
  destruct (cpu_pass_prefix path b acc w Hfs Hcpu Hloads) as (w3 & _ & Heq).
  refine (eq_trans (Heq (λ mobile_module_runner, _)) _).
  cbn beta. rewrite Hstyle. apply bind_inl, bind_inl.
  unfold get_all_bundled_inputs_or_throw. by rewrite Hnone.
Qed.

(** X10: a CPU bundle of the legacy convention without bundled inputs makes
    the pass, and the session, throw. *)
Theorem legacy_bundle_without_inputs_is_fatal (path : string) (b : Bundle) :
  file_system host path = Some b →
  set_has_metal_gpu_operators host (get_root_operators b) = false →
  loads_in_standard_mode b = true →
  has_new_style_bundled_inputs b = false →
  get_all_bundled_inputs b = None →
  (∀ acc w, run_model host path acc w = inl no_bundled_inputs) ∧
  (∀ w, trace_run host path w = inl no_bundled_inputs).
Proof.
  intros Hfs Hcpu Hloads Hstyle Hnone. split.
  - intros acc w. by apply (legacy_without_inputs_throws path b).
  - intros w. unfold trace_run.
    rewrite (bind_run _ _ _ _ _ (trace_run_setup_run host w)).
    by apply bind_inl, (legacy_without_inputs_throws path b).
Qed.

Lemma legacy_execution_failure path b inputs acc w :
  file_system host path = Some b →
  set_has_metal_gpu_operators host (get_root_operators b) = false →
  loads_in_standard_mode b = true →
  has_new_style_bundled_inputs b = false →
  get_all_bundled_inputs b = Some inputs →
  forward host (qengine w) b None inputs = None →
  run_model host path acc w = inl execution_failure.
Proof.
  intros Hfs Hcpu Hloads Hstyle Hinputs Hfwd. unfold run_model.
  rewrite (bind_run _ _ _ _ _ (run_model_load_run host path acc w b Hfs)).
  unfold run_model_classify. cbn [acc_root_ops loaded_accumulators].
  rewrite Hcpu.
  destruct (cpu_pass_prefix path b acc w Hfs Hcpu Hloads) as (w3 & He3 & Heq).
  refine (eq_trans (Heq (λ mobile_module_runner, _)) _).
  cbn beta. rewrite Hstyle. apply bind_inl.
  unfold get_all_bundled_inputs_or_throw. rewrite Hinputs.
  erewrite bind_run; [| reflexivity]. apply bind_inl.
  unfold run_with_inputs, mbind, M_bind, get_world. by rewrite He3, Hfwd.
Qed.

(** X11: a pass over a CPU bundle of the legacy convention whose execution
    succeeds returns, leaving the declared root operators, ["CPU"] added to
    the backends and the kernel tags untouched; it loads permissively, loads
    in standard mode, applies the hook to the bundled-input tensors, runs
    the default method once on all bundled inputs and applies the hook to
    every tensor of every result, in this order, and does nothing else. *)
Theorem legacy_cpu_pass
    (path : string) (b : Bundle) (inputs : list (list IValue))
    (results : list IValue) (acc : Accumulators) (w : World) :
  file_system host path = Some b →
  set_has_metal_gpu_operators host (get_root_operators b) = false →
  loads_in_standard_mode b = true →
  has_new_style_bundled_inputs b = false →
  get_all_bundled_inputs b = Some inputs →
  forward host (qengine w) b None inputs = Some results →
  ∃ w',
    run_model host path acc w = inr (cpu_accumulators b acc, w') ∧
    new_entries w w'
    = pass_start (qengine w) path :: standard_load (qengine w) path
      :: visit_entries BundledInput (qengine w) (bundled_input_tensors b)
      ++ run_entry (qengine w) None inputs
      :: result_entries (qengine w) results.
Proof.
  intros Hfs Hcpu Hloads Hstyle Hinputs Hfwd.
  destruct (yields_cpu_pass (qengine w) path b acc w
              (run_entry (qengine w) None inputs
               :: result_entries (qengine w) results)
              eq_refl Hfs Hcpu Hloads) as (w' & Hrun & Hext).
  { intros w3 He3. rewrite Hstyle. by apply yields_legacy. }
  exists w'. split; [exact Hrun |].
  apply new_entries_app, (ext_log _ _ _ _ _ Hext).
Qed.

(** X12: a pass over a CPU bundle of the new convention whose executions
    succeed returns; after the two loads and the hook on the bundled-input
    tensors it runs every function of the mapping once, in the mapping's
    order, each followed by the hook on the tensors of its results; the
    legacy accessor is not consulted. *)
Theorem new_style_cpu_pass
    (path : string) (b : Bundle) (acc : Accumulators) (w : World) :
  file_system host path = Some b →
  set_has_metal_gpu_operators host (get_root_operators b) = false →
  loads_in_standard_mode b = true →
  has_new_style_bundled_inputs b = true →
  (∀ entry, entry ∈ get_many_functions_bundled_inputs b →
     is_Some (forward host (qengine w) b (Some entry.1) entry.2)) →
  ∃ w',
    run_model host path acc w = inr (cpu_accumulators b acc, w') ∧
    new_entries w w'
    = pass_start (qengine w) path :: standard_load (qengine w) path
      :: visit_entries BundledInput (qengine w) (bundled_input_tensors b)
      ++ flat_map (function_entries host (qengine w) b)
           (get_many_functions_bundled_inputs b).
Proof.
  intros Hfs Hcpu Hloads Hstyle Hall.
  destruct (yields_cpu_pass (qengine w) path b acc w
              (flat_map (function_entries host (qengine w) b)
                 (get_many_functions_bundled_inputs b))
              eq_refl Hfs Hcpu Hloads) as (w' & Hrun & Hext).
  { intros w3 He3. rewrite Hstyle. by apply yields_functions. }
  exists w'. split; [exact Hrun |].
  apply new_entries_app, (ext_log _ _ _ _ _ Hext).
Qed.

(** X13: when the execution of a legacy CPU bundle fails under the active
    engine the pass throws; when it fails under either engine the session
    throws, also when the first pass has succeeded. *)
Theorem execution_failure_is_fatal
    (path : string) (b : Bundle) (inputs : list (list IValue)) :
  file_system host path = Some b →
  set_has_metal_gpu_operators host (get_root_operators b) = false →
  loads_in_standard_mode b = true →
  has_new_style_bundled_inputs b = false →
  get_all_bundled_inputs b = Some inputs →
  (∀ acc w,
     forward host (qengine w) b None inputs = None →
     run_model host path acc w = inl execution_failure) ∧
  (forward host QNNPACK b None inputs = None ∨
   forward host FBGEMM b None inputs = None →
   ∀ w, trace_run host path w = inl execution_failure).
Proof.
  intros Hfs Hcpu Hloads Hstyle Hinputs. split.
  - intros acc w Hfwd. by eapply legacy_execution_failure.
  - intros Hfail w. unfold trace_run.
    rewrite (bind_run _ _ _ _ _ (trace_run_setup_run host w)).
    assert (qengine (warmed_up host w) = QNNPACK) as Hq
      by apply (ext_qengine _ _ _ _ _ (warmed_up_extends host w)).
    destruct (forward host QNNPACK b None inputs) as [results |] eqn:Hfirst.
    + destruct Hfail as [? | Hsecond]; [done |].
      destruct (yields_cpu_pass QNNPACK path b empty_accumulators
                  (warmed_up host w)
                  (run_entry QNNPACK None inputs :: result_entries QNNPACK results)
                  Hq Hfs Hcpu Hloads) as (w2 & Hrun & _).
      { intros w3 He3. rewrite Hstyle. by apply yields_legacy. }
      rewrite (bind_run _ _ _ _ _ Hrun).
      rewrite (bind_run _ _ _ _ _ (engine_selected_run FBGEMM w2)).
      apply bind_inl. by eapply legacy_execution_failure.
    + apply bind_inl.
      eapply legacy_execution_failure; first [done | by rewrite Hq].
Qed.

End CpuPass.

(** ** The manifest as a function of the bundle and the stores *)

Section ManifestContent.

Context (host : Host).

Lemma classified_idempotent b acc :
  classified host
    (loaded_accumulators b (classified host (loaded_accumulators b acc)))
  = classified host (loaded_accumulators b acc).
Proof.
  unfold classified, loaded_accumulators.
  cbn [acc_root_ops acc_enabled_backends acc_called_kernel_tags].
  destruct (set_has_metal_gpu_operators host (get_root_operators b));
    cbn [acc_root_ops acc_enabled_backends acc_called_kernel_tags].
  - rewrite insert_insert_eq. f_equal.
    rewrite (assoc_L (∪)). by rewrite (idemp_L (∪) ({["Metal GPU"]} : gset string)).
  - f_equal.
    rewrite (assoc_L (∪)). by rewrite (idemp_L (∪) ({["CPU"]} : gset string)).
Qed.

(** X14: a pass is idempotent on the accumulators: a second pass over the
    same path, from what the first left, leaves the accumulators as they
    are, whatever the process state. *)
Theorem second_pass_keeps_accumulators
    (path : string) (acc acc1 acc2 : Accumulators) (w w1 w2 w3 : World) :
  run_model host path acc w = inr (acc1, w1) →
  run_model host path acc1 w2 = inr (acc2, w3) →
  acc2 = acc1.
Proof.
  intros (b & es & Hfs & -> & _)%run_model_inv Hsecond.
  rewrite (pass_accumulators host _ _ _ _ _ _ Hfs Hsecond).
  apply classified_idempotent.
Qed.

Lemma session_accumulators path b w m w' :
  trace_run host path w = inr (m, w') →
  file_system host path = Some b →
  ∃ w4,
    m = collected host
          (classified host (loaded_accumulators b empty_accumulators)) w4 ∧
    quiet w4 w' (collect_entries FBGEMM) ∧
    jit_operators w4 = jit_operators w ∧
    dispatcher_operators w4 = dispatcher_operators w.
Proof.
  intros Hrun Hfs.
  apply session_stretches in Hrun
    as (acc1 & w2 & acc2 & w4 & pass1 & pass2 & Hpass1 & Hpass2 & -> &
        Hext1 & Hext2 & Hquiet & _).
  pose proof (warmed_up_extends host w) as Hext0.
  exists w4. split_and!.
  - f_equal.
    rewrite (pass_accumulators host _ _ _ _ _ _ Hfs Hpass2).
    rewrite (pass_accumulators host _ _ _ _ _ _ Hfs Hpass1).
    apply classified_idempotent.
  - exact Hquiet.
  - rewrite (ext_jit _ _ _ _ _ Hext2).
    change (jit_operators (engine_selected FBGEMM w2)) with (jit_operators w2).
    by rewrite (ext_jit _ _ _ _ _ Hext1), (ext_jit _ _ _ _ _ Hext0).
  - rewrite (ext_dispatcher _ _ _ _ _ Hext2).
    change (dispatcher_operators (engine_selected FBGEMM w2))
      with (dispatcher_operators w2).
    by rewrite (ext_dispatcher _ _ _ _ _ Hext1), (ext_dispatcher _ _ _ _ _ Hext0).
Qed.

(** X15: the manifest's root operators are the bundle's declared root
    operators, joined with the GPU reference table when the bundle is
    classified as a GPU bundle; its enabled backends are the single backend
    of that classification. *)
Theorem manifest_roots_and_backends
    (path : string) (b : Bundle) (w w' : World) (m : TracerResult) :
  trace_run host path w = inr (m, w') →
  file_system host path = Some b →
  root_ops m
  = (if set_has_metal_gpu_operators host (get_root_operators b)
     then get_root_operators b ∪ list_to_set gpu_metal_operators
     else get_root_operators b) ∧
  enabled_backends m
  = (if set_has_metal_gpu_operators host (get_root_operators b)
     then {["Metal GPU"]} else {["CPU"]}).
Proof.
  intros Hrun Hfs.
  destruct (session_accumulators _ _ _ _ _ Hrun Hfs) as (w4 & -> & _).
  unfold collected, classified, loaded_accumulators, empty_accumulators.
  cbn [root_ops enabled_backends acc_root_ops acc_enabled_backends].
  destruct (set_has_metal_gpu_operators host (get_root_operators b));
    cbn [acc_root_ops acc_enabled_backends];
    (split; [done | by rewrite (right_id_L ∅ (∪))]).
Qed.

(** X16: the manifest's kernel tags are the kernel-dtype store as it is at
    the end of the session; for a GPU bundle the entry under ["__unused__"]
    is [{"Float"}], whatever the store holds under that tag. *)
Theorem manifest_kernel_tags
    (path : string) (b : Bundle) (w w' : World) (m : TracerResult) :
  trace_run host path w = inr (m, w') →
  file_system host path = Some b →
  called_kernel_tags_result m
  = (if set_has_metal_gpu_operators host (get_root_operators b)
     then <["__unused__" := {["Float"]}]> (called_kernel_tags (slots w'))
     else called_kernel_tags (slots w')).
Proof.
  intros Hrun Hfs.
  destruct (session_accumulators _ _ _ _ _ Hrun Hfs) as (w4 & -> & Hquiet & _).
  rewrite (quiet_slots _ _ _ Hquiet).
  unfold collected, classified, loaded_accumulators, empty_accumulators.
  cbn [called_kernel_tags_result acc_root_ops acc_called_kernel_tags].
  rewrite map_insert_range_map_to_list.
  destruct (set_has_metal_gpu_operators host (get_root_operators b));
    cbn [acc_called_kernel_tags].
  - by rewrite <- insert_union_l, (left_id_L ∅ (∪)).
  - by rewrite (left_id_L ∅ (∪)).
Qed.

Lemma registry_of_same w1 w2 :
  jit_operators w1 = jit_operators w2 →
  dispatcher_operators w1 = dispatcher_operators w2 →
  registry_of w1 = registry_of w2.
Proof.
  intros Hjit Hdisp.
  unfold registry_of, _get_runtime_ops_and_schema, mbind, M_bind, get_world,
    mret, M_ret.
  by rewrite Hjit, Hdisp.
Qed.

(** X17: the manifest's custom classes are the custom-class store joined
    with what the schemas of the root operators and of the operators in the
    operator-call store yield; the always-included baseline, merged into the
    traced operators afterwards, is not among the operators whose schemas
    are inspected.  The build features are the build-feature store. *)
Theorem manifest_classes_and_features
    (path : string) (w w' : World) (m : TracerResult) :
  trace_run host path w = inr (m, w') →
  loaded_classes_result m
  = ⋃ (classes_of_operator (registry_of w)
         <$> elements (root_ops m ∪ called_operators (slots w')))
    ∪ loaded_classes (slots w') ∧
  traced_operators m
  = called_operators (slots w')
    ∪ list_to_set (always_included_traced_ops host) ∧
  build_features_result m = build_features (slots w').
Proof.
  intros Hrun.
  destruct (trace_run_inv host _ _ _ _ Hrun)
    as (acc1 & w2 & acc2 & w4 & Hpass1 & _).
  destruct (run_model_inv host _ _ _ _ _ Hpass1) as (b & _ & Hfs & _).
  destruct (session_accumulators _ _ _ _ _ Hrun Hfs)
    as (w4' & -> & Hquiet & Hjit & Hdisp).
  rewrite (quiet_slots _ _ _ Hquiet).
  unfold collected, set_insert_range.
  cbn [loaded_classes_result traced_operators build_features_result root_ops].
  rewrite (registry_of_same _ _ Hjit Hdisp), !list_to_set_elements_L.
  by rewrite !(right_id_L ∅ (∪)), (left_id_L ∅ (∪)).
Qed.

(** X18: a session that returns leaves engine B (FBGEMM) selected, whatever
    engine was selected before it, and the operator tables as they were. *)
Theorem session_leaves_engine_b_selected
    (path : string) (w w' : World) (m : TracerResult) :
  trace_run host path w = inr (m, w') →
  qengine w' = FBGEMM ∧
  jit_operators w' = jit_operators w ∧
  dispatcher_operators w' = dispatcher_operators w.
Proof.
  intros Hrun.
  destruct (trace_run_inv host _ _ _ _ Hrun)
    as (acc1 & w2 & acc2 & w4 & Hpass1 & _).
  destruct (run_model_inv host _ _ _ _ _ Hpass1) as (b & _ & Hfs & _).
  destruct (session_accumulators _ _ _ _ _ Hrun Hfs)
    as (w4' & _ & Hquiet & Hjit & Hdisp).
  apply session_stretches in Hrun
    as (? & ? & ? & w4'' & ? & ? & _ & _ & _ & _ & Hext2 & Hquiet' & _).
  split_and!.
  - rewrite (quiet_qengine _ _ _ Hquiet'). apply (ext_qengine _ _ _ _ _ Hext2).
  - by rewrite (quiet_jit _ _ _ Hquiet).
  - by rewrite (quiet_dispatcher _ _ _ Hquiet).
Qed.

(** X19: the warm-up block always completes; it performs the calls of
    [warm_up_calls] in order and nothing else, among them a [copy_] into
    each of the eight element types from a Bool, a Float and an Int source,
    and leaves the engine and the suppression list as they are. *)
Theorem warm_up_copies_into_every_dtype (w : World) :
  ∃ w',
    call_setup_methods host w = inr (tt, w') ∧
    new_entries w w'
    = (λ c, {| active_engine := qengine w; event := E_action (A_call c) |})
        <$> warm_up_calls ∧
    (∀ self src,
       self ∈ all_dtypes_for_copy → src ∈ [kBool; kFloat; kInt] →
       copy_ self src ∈ warm_up_calls) ∧
    qengine w' = qengine w ∧
    unobserved_operator_list w' = unobserved_operator_list w.
Proof.
  pose proof (performed_calls_extends host warm_up_calls w) as Hext.
  eexists. split; [apply call_setup_methods_performs |]. split_and!.
  - apply new_entries_app, (ext_log _ _ _ _ _ Hext).
  - intros self src _ Hsrc.
    destruct src;
      try (apply (bool_decide_pack _) in Hsrc; vm_compute in Hsrc; done);
      destruct self; apply (bool_decide_unpack _); vm_compute; exact I.
  - apply (ext_qengine _ _ _ _ _ Hext).
  - apply (ext_unobserved _ _ _ _ _ Hext).
Qed.

End ManifestContent.

(** ** The properties on the sample hosts *)

Lemma registry_entries_come_from_the_tables_witness :
  registry_of Sample.world !! "aten::add.Tensor" = Some Sample.add_Tensor ∧
  ((Sample.add_Tensor ∈ jit_operators Sample.world ∧
    "aten::add.Tensor"
    = qualified_name (name Sample.add_Tensor) (overload_name Sample.add_Tensor)) ∨
   (∃ h, h ∈ dispatcher_operators Sample.world ∧
         handle_schema h = Some Sample.add_Tensor ∧
         "aten::add.Tensor"
         = qualified_name (op_name (operator_name h))
                          (op_overload_name (operator_name h)))).
Proof.
  assert (registry_of Sample.world !! "aten::add.Tensor"
          = Some Sample.add_Tensor) as Hk by (vm_compute; reflexivity).
  split; [exact Hk |].
  exact (registry_entries_come_from_the_tables Sample.world _ _ Hk).
Defined.

Lemma first_jit_operator_wins_witness :
  jit_operators Sample.world
    = [] ++ Sample.linear_clamp_prepack :: [Sample.make_handle] ∧
  registry_of Sample.world !! "prepacked::linear_clamp_prepack"
    = Some Sample.linear_clamp_prepack.
Proof.
  split; [reflexivity |].
  apply (first_jit_operator_wins Sample.world [] [Sample.make_handle]
           Sample.linear_clamp_prepack); [reflexivity |].
  intros op' Hin. by apply elem_of_nil in Hin.
Defined.

Lemma registry_keys_witness :
  NoDup (operator_name <$> dispatcher_operators Sample.world) ∧
  ¬ is_Some (registry_of Sample.world !! "aten::conv2d").
Proof.
  assert (NoDup (operator_name <$> dispatcher_operators Sample.world)) as Hnodup.
  { apply (bool_decide_unpack _). vm_compute. exact I. }
  split; [exact Hnodup |].
  intros Hkey.
  apply (registry_keys Sample.world "aten::conv2d" Hnodup) in Hkey
    as [(op & Hop & Hk) | (h & schema & Hh & Hs & Hk)].
  - simpl in Hop.
    repeat (apply elem_of_cons in Hop as [-> | Hop]);
      [vm_compute in Hk; discriminate.. | by apply elem_of_nil in Hop].
  - simpl in Hh.
    repeat (apply elem_of_cons in Hh as [-> | Hh]);
      [vm_compute in Hk; discriminate | discriminate
       | by apply elem_of_nil in Hh].
Defined.

Lemma recorded_class_name_shape_witness :
  contains_substring custom_type_marker
    "__torch__.torch.classes.xnnpack.LinearOpContext" ∧
  size "__torch__.torch.classes.xnnpack.LinearOpContext" < npos ∧
  ∃ class_name,
    (∀ loaded w,
       record_if_class "__torch__.torch.classes.xnnpack.LinearOpContext" loaded w
       = inr ({[class_name]} ∪ loaded, w)) ∧
    ¬ contains_char path_separator class_name ∧
    (class_name = "__torch__.torch.classes.xnnpack.LinearOpContext" ∨
     ∃ pre, "__torch__.torch.classes.xnnpack.LinearOpContext"
            = pre +:+ String path_separator class_name).
Proof.
  assert (contains_substring custom_type_marker
            "__torch__.torch.classes.xnnpack.LinearOpContext") as Hc
    by (exists EmptyString, ".torch.classes.xnnpack.LinearOpContext"; reflexivity).
  assert (size "__torch__.torch.classes.xnnpack.LinearOpContext" < npos)
    as Hsize by reflexivity.
  split; [exact Hc |]. split; [exact Hsize |].
  exact (recorded_class_name_shape _ Hc Hsize).
Defined.

Lemma trailing_separator_records_empty_name_witness :
  contains_substring custom_type_marker ("__torch__" +:+ String path_separator "") ∧
  size ("__torch__" +:+ String path_separator "") < npos ∧
  ∀ loaded w,
    record_if_class ("__torch__" +:+ String path_separator "") loaded w
    = inr ({[EmptyString]} ∪ loaded, w).
Proof.
  assert (contains_substring custom_type_marker
            ("__torch__" +:+ String path_separator "")) as Hc
    by (exists EmptyString, "."; reflexivity).
  assert (size ("__torch__" +:+ String path_separator "") < npos)
    as Hsize by reflexivity.
  split; [exact Hc |]. split; [exact Hsize |].
  exact (trailing_separator_records_empty_name "__torch__" Hc Hsize).
Defined.

Lemma missing_bundle_is_fatal_witness :
  file_system Sample.host Cases.missing_path = None ∧
  trace_run Sample.host Cases.missing_path Sample.world
    = inl (load_failure Cases.missing_path).
Proof.
  split; [reflexivity |].
  exact (proj2 (missing_bundle_is_fatal Sample.host Cases.missing_path eq_refl)
           Sample.world).
Defined.

Lemma standard_load_failure_is_fatal_witness :
  file_system Cases.host Cases.broken_path = Some Cases.broken_bundle ∧
  trace_run Cases.host Cases.broken_path Sample.world
    = inl (load_failure Cases.broken_path).
Proof.
  assert (set_has_metal_gpu_operators Cases.host
            (get_root_operators Cases.broken_bundle) = false) as Hcpu
    by (vm_compute; reflexivity).
  split; [reflexivity |].
  exact (proj2 (standard_load_failure_is_fatal Cases.host Cases.broken_path
                  Cases.broken_bundle eq_refl Hcpu eq_refl)
           Sample.world).
Defined.

Lemma legacy_bundle_without_inputs_is_fatal_witness :
  file_system Cases.host Cases.silent_path = Some Cases.silent_bundle ∧
  trace_run Cases.host Cases.silent_path Sample.world = inl no_bundled_inputs.
Proof.
  assert (set_has_metal_gpu_operators Cases.host
            (get_root_operators Cases.silent_bundle) = false) as Hcpu
    by (vm_compute; reflexivity).
  split; [reflexivity |].
  exact (proj2 (legacy_bundle_without_inputs_is_fatal Cases.host
                  Cases.silent_path Cases.silent_bundle
                  eq_refl Hcpu eq_refl eq_refl eq_refl)
           Sample.world).
Defined.

Lemma execution_failure_is_fatal_witness :
  file_system Cases.fragile_host Sample.cpu_path = Some Sample.cpu_bundle ∧
  trace_run Cases.fragile_host Sample.cpu_path Sample.world
    = inl execution_failure.
Proof.
  assert (set_has_metal_gpu_operators Cases.fragile_host
            (get_root_operators Sample.cpu_bundle) = false) as Hcpu
    by (vm_compute; reflexivity).
  split; [reflexivity |].
  exact (proj2 (execution_failure_is_fatal Cases.fragile_host Sample.cpu_path
                  Sample.cpu_bundle [[IV_Tensor Sample.input_tensor]]
                  eq_refl Hcpu eq_refl eq_refl eq_refl)
           (or_intror eq_refl) Sample.world).
Defined.

Lemma legacy_cpu_pass_witness :
  forward Sample.host (qengine Sample.world) Sample.cpu_bundle None
    [[IV_Tensor Sample.input_tensor]] = Some [IV_Tensor Sample.output_tensor] ∧
  ∃ w',
    run_model Sample.host Sample.cpu_path empty_accumulators Sample.world
      = inr (cpu_accumulators Sample.cpu_bundle empty_accumulators, w') ∧
    new_entries Sample.world w'
    = pass_start FBGEMM Sample.cpu_path :: standard_load FBGEMM Sample.cpu_path
      :: visit_entries BundledInput FBGEMM [Sample.input_tensor]
      ++ run_entry FBGEMM None [[IV_Tensor Sample.input_tensor]]
      :: result_entries FBGEMM [IV_Tensor Sample.output_tensor].
Proof.
  assert (set_has_metal_gpu_operators Sample.host
            (get_root_operators Sample.cpu_bundle) = false) as Hcpu
    by (vm_compute; reflexivity).
  split; [reflexivity |].
  exact (legacy_cpu_pass Sample.host Sample.cpu_path Sample.cpu_bundle
           [[IV_Tensor Sample.input_tensor]] [IV_Tensor Sample.output_tensor]
           empty_accumulators Sample.world
           eq_refl Hcpu eq_refl eq_refl eq_refl eq_refl).
Defined.

Lemma new_style_cpu_pass_witness :
  file_system Cases.host Cases.multi_path = Some Cases.multi_bundle ∧
  ∃ w',
    run_model Cases.host Cases.multi_path empty_accumulators Sample.world
      = inr (cpu_accumulators Cases.multi_bundle empty_accumulators, w') ∧
    new_entries Sample.world w'
    = pass_start FBGEMM Cases.multi_path :: standard_load FBGEMM Cases.multi_path
      :: visit_entries BundledInput FBGEMM
           (bundled_input_tensors Cases.multi_bundle)
      ++ flat_map (function_entries Cases.host FBGEMM Cases.multi_bundle)
           (get_many_functions_bundled_inputs Cases.multi_bundle).
Proof.
  assert (set_has_metal_gpu_operators Cases.host
            (get_root_operators Cases.multi_bundle) = false) as Hcpu
    by (vm_compute; reflexivity).
  split; [reflexivity |].
  exact (new_style_cpu_pass Cases.host Cases.multi_path Cases.multi_bundle
           empty_accumulators Sample.world
           eq_refl Hcpu eq_refl eq_refl (λ entry _, ex_intro _ _ eq_refl)).
Defined.

Lemma second_pass_keeps_accumulators_witness :
  run_model Sample.host Sample.gpu_path empty_accumulators
    (warmed_up Sample.host Sample.world)
    = inr (Sample.acc1, Sample.after_first_pass) ∧
  run_model Sample.host Sample.gpu_path Sample.acc1
    (engine_selected FBGEMM Sample.after_first_pass)
    = inr (Sample.acc2, Sample.after_second_pass) ∧
  Sample.acc2 = Sample.acc1.
Proof.
  assert (run_model Sample.host Sample.gpu_path empty_accumulators
            (warmed_up Sample.host Sample.world)
          = inr (Sample.acc1, Sample.after_first_pass)) as Hfirst
    by (vm_compute; reflexivity).
  assert (run_model Sample.host Sample.gpu_path Sample.acc1
            (engine_selected FBGEMM Sample.after_first_pass)
          = inr (Sample.acc2, Sample.after_second_pass)) as Hsecond
    by (vm_compute; reflexivity).
  split; [exact Hfirst |]. split; [exact Hsecond |].
  exact (second_pass_keeps_accumulators Sample.host Sample.gpu_path
           _ _ _ _ _ _ _ Hfirst Hsecond).
Defined.

Lemma manifest_roots_and_backends_witness :
  trace_run Sample.host Sample.cpu_path Sample.world
    = inr (Sample.cpu_manifest, Sample.cpu_final_world) ∧
  root_ops Sample.cpu_manifest
  = (if set_has_metal_gpu_operators Sample.host
          (get_root_operators Sample.cpu_bundle)
     then get_root_operators Sample.cpu_bundle ∪ list_to_set gpu_metal_operators
     else get_root_operators Sample.cpu_bundle) ∧
  enabled_backends Sample.cpu_manifest
  = (if set_has_metal_gpu_operators Sample.host
          (get_root_operators Sample.cpu_bundle)
     then {["Metal GPU"]} else {["CPU"]}).
Proof.
  match goal with
  | |- ?run ∧ _ => assert run as Hrun by (vm_compute; reflexivity)
  end.
  split; [exact Hrun |].
  exact (manifest_roots_and_backends Sample.host Sample.cpu_path
           Sample.cpu_bundle Sample.world Sample.cpu_final_world
           Sample.cpu_manifest Hrun eq_refl).
Defined.

Lemma manifest_kernel_tags_witness :
  trace_run Sample.host Sample.gpu_path Sample.world
    = inr (Sample.gpu_manifest, Sample.gpu_final_world) ∧
  called_kernel_tags_result Sample.gpu_manifest
  = (if set_has_metal_gpu_operators Sample.host
          (get_root_operators Sample.gpu_bundle)
     then <["__unused__" := {["Float"]}]>
            (called_kernel_tags (slots Sample.gpu_final_world))
     else called_kernel_tags (slots Sample.gpu_final_world)).
Proof.
  match goal with
  | |- ?run ∧ _ => assert run as Hrun by (vm_compute; reflexivity)
  end.
  split; [exact Hrun |].
  exact (manifest_kernel_tags Sample.host Sample.gpu_path
           Sample.gpu_bundle Sample.world Sample.gpu_final_world
           Sample.gpu_manifest Hrun eq_refl).
Defined.

Lemma manifest_classes_and_features_witness :
  trace_run Sample.host Sample.cpu_path Sample.world
    = inr (Sample.cpu_manifest, Sample.cpu_final_world) ∧
  build_features_result Sample.cpu_manifest
  = build_features (slots Sample.cpu_final_world).
Proof.
  match goal with
  | |- ?run ∧ _ => assert run as Hrun by (vm_compute; reflexivity)
  end.
  split; [exact Hrun |].
  exact (proj2 (proj2 (manifest_classes_and_features Sample.host Sample.cpu_path
           Sample.world Sample.cpu_final_world Sample.cpu_manifest Hrun))).
Defined.

Lemma session_leaves_engine_b_selected_witness :
  trace_run Sample.host Sample.cpu_path Sample.world
    = inr (Sample.cpu_manifest, Sample.cpu_final_world) ∧
  qengine Sample.cpu_final_world = FBGEMM.
Proof.
  match goal with
  | |- ?run ∧ _ => assert run as Hrun by (vm_compute; reflexivity)
  end.
  split; [exact Hrun |].
  exact (proj1 (session_leaves_engine_b_selected Sample.host Sample.cpu_path
           Sample.world Sample.cpu_final_world Sample.cpu_manifest Hrun)).
Defined.
